(** * The E2B MCP gateway (e2b-mcp-gateway/server.js)

    A shallow embedding of the stdio session [callMcpServer] and of the
    HTTP handlers [POST /mcp] and [POST /run], with the properties of the
    session life cycle, the line-buffered stdout parser and the
    request/response mapping.

    Conventions.
    - A JavaScript string is the list of its UTF-16 code units.
    - A stdout/stderr chunk is a Buffer: a list of bytes; [toString] is the
      UTF-8 decoding that [chunk.toString()] performs on that chunk alone.
    - The callbacks registered on the subprocess are modelled as one step
      function over the events the runtime can deliver; what a callback does
      to the outside world (spawn, stdin writes, kill, resolve, reject) is
      appended to an ordered effect log. *)

From Stdlib Require Import List ZArith NArith Bool String Ascii Lia.
From Stdlib Require Import Strings.Byte DecimalString.
Import ListNotations.
Local Open Scope N_scope.

(* ================================================================== *)
(** ** JavaScript strings *)

Module JsString.

Definition jsstring := list N.

(** Code units of a string literal of the development (ASCII only). *)
Definition js (s : string) : jsstring :=
  map N_of_ascii (list_ascii_of_string s).

(** The same, with every apostrophe read as a double quote, to write JSON
    text legibly. *)
Definition jq (s : string) : jsstring :=
  map (fun c => if c =? 39 then 34 else c) (js s).

Definition eqb (a b : jsstring) : bool :=
  if list_eq_dec N.eq_dec a b then true else false.

(** [s.split('\n')]: never empty; the last element is the text after the
    last line feed. *)
Fixpoint split_nl (s : jsstring) : list jsstring :=
  match s with
  | [] => [[]]
  | c :: r =>
      if c =? 10 then [] :: split_nl r
      else match split_nl r with
           | l :: ls => (c :: l) :: ls
           | [] => [[c]]
           end
  end.

(** ECMAScript WhiteSpace and LineTerminator code units, as stripped by
    [String.prototype.trim]. *)
Definition is_space (c : N) : bool :=
  ((9 <=? c) && (c <=? 13)) || (c =? 32) || (c =? 160) || (c =? 5760)
  || ((8192 <=? c) && (c <=? 8202)) || (c =? 8232) || (c =? 8233)
  || (c =? 8239) || (c =? 8287) || (c =? 12288) || (c =? 65279).

Fixpoint trim_start (s : jsstring) : jsstring :=
  match s with
  | c :: r => if is_space c then trim_start r else s
  | [] => []
  end.

Definition trim (s : jsstring) : jsstring :=
  rev (trim_start (rev (trim_start s))).

(** Lines of a text that are terminated by a line feed, and what follows
    the last line feed. *)
Definition complete_lines (s : jsstring) : list jsstring :=
  removelast (split_nl s).

Definition residue (s : jsstring) : jsstring :=
  last (split_nl s) [].

(** Text made of the given lines, each terminated by a line feed. *)
Definition unlines (ls : list jsstring) : jsstring :=
  List.concat (map (fun l => l ++ [10]) ls).

Definition no_nl (l : jsstring) : Prop := ~ In 10 l.

End JsString.
Import JsString.

(* ================================================================== *)
(** ** Buffers and [Buffer.prototype.toString] (UTF-8) *)

Module Utf8.

Definition replacement : N := 65533.

Definition is_cont (b : N) : bool := (128 <=? b) && (b <=? 191).

Definition between (lo hi b : N) : bool := (lo <=? b) && (b <=? hi).

(** Admissible range of the second byte after a three- or four-byte lead. *)
Definition second_lo (b0 : N) : N :=
  if b0 =? 224 then 160 else if b0 =? 240 then 144 else 128.

Definition second_hi (b0 : N) : N :=
  if b0 =? 237 then 159 else if b0 =? 244 then 143 else 191.

(** UTF-16 code units of a code point. *)
Definition utf16 (cp : N) : jsstring :=
  if cp <? 65536 then [cp]
  else [55296 + (cp - 65536) / 1024; 56320 + (cp - 65536) mod 1024].

(** The decoder replaces every maximal ill-formed prefix by one U+FFFD and
    resumes at the byte that broke the sequence; a sequence cut by the end
    of the buffer is ill-formed. *)
Fixpoint decode (bs : list N) : jsstring :=
  match bs with
  | [] => []
  | b0 :: r0 =>
      if b0 <? 128 then b0 :: decode r0
      else if between 194 223 b0 then
        match r0 with
        | b1 :: r1 =>
            if is_cont b1
            then ((b0 - 192) * 64 + (b1 - 128)) :: decode r1
            else replacement :: decode r0
        | [] => [replacement]
        end
      else if between 224 239 b0 then
        match r0 with
        | b1 :: r1 =>
            if between (second_lo b0) (second_hi b0) b1 then
              match r1 with
              | b2 :: r2 =>
                  if is_cont b2
                  then ((b0 - 224) * 4096 + (b1 - 128) * 64 + (b2 - 128))
                       :: decode r2
                  else replacement :: decode r1
              | [] => [replacement]
              end
            else replacement :: decode r0
        | [] => [replacement]
        end
      else if between 240 244 b0 then
        match r0 with
        | b1 :: r1 =>
            if between (second_lo b0) (second_hi b0) b1 then
              match r1 with
              | b2 :: r2 =>
                  if is_cont b2 then
                    match r2 with
                    | b3 :: r3 =>
                        if is_cont b3
                        then utf16 ((b0 - 240) * 262144 + (b1 - 128) * 4096
                                    + (b2 - 128) * 64 + (b3 - 128))
                             ++ decode r3
                        else replacement :: decode r2
                    | [] => [replacement]
                    end
                  else replacement :: decode r1
              | [] => [replacement]
              end
            else replacement :: decode r0
        | [] => [replacement]
        end
      else replacement :: decode r0
  end.

Definition buffer := list byte.

(** [chunk.toString()] *)
Definition toString (chunk : buffer) : jsstring :=
  decode (map Byte.to_N chunk).

(** [Buffer.from(s)] for an ASCII literal. *)
Definition ascii_buffer (s : string) : buffer := list_byte_of_string s.

Definition quoted_buffer (s : string) : buffer :=
  map (fun b => if Byte.eqb b x27 then x22 else b) (list_byte_of_string s).

(** The bytes are a sequence of complete, well-formed UTF-8 characters:
    the buffer does not end inside a character. *)
Fixpoint well_formed (bs : list N) : bool :=
  match bs with
  | [] => true
  | b0 :: r0 =>
      if b0 <? 128 then well_formed r0
      else if between 194 223 b0 then
        match r0 with
        | b1 :: r1 => is_cont b1 && well_formed r1
        | [] => false
        end
      else if between 224 239 b0 then
        match r0 with
        | b1 :: (b2 :: r2) =>
            between (second_lo b0) (second_hi b0) b1
            && is_cont b2 && well_formed r2
        | _ => false
        end
      else if between 240 244 b0 then
        match r0 with
        | b1 :: (b2 :: (b3 :: r3)) =>
            between (second_lo b0) (second_hi b0) b1
            && is_cont b2 && is_cont b3 && well_formed r3
        | _ => false
        end
      else false
  end.

Definition whole_characters (chunk : buffer) : Prop :=
  well_formed (map Byte.to_N chunk) = true.

End Utf8.
Import Utf8.

(* ================================================================== *)
(** ** JSON values as JavaScript sees them *)

Module Json.

(** A JavaScript number that [JSON.parse] can return: a finite binary64
    value, written exactly as [m * 10^e], or an infinity (from a literal
    too large for binary64). [JSON.parse] never returns NaN. *)
Inductive number :=
| Finite (m e : Z)
| PosInf
| NegInf.

#[warnings="-register-all"]
Inductive json :=
| JNull
| JBool (b : bool)
| JNum (n : number)
| JStr (s : jsstring)
| JArr (l : list json)
| JObj (fields : list (jsstring * json)).

(** A JavaScript value read from parsed JSON: a JSON value or [undefined]. *)
Inductive jsval :=
| Undefined
| Val (j : json).

Definition number_eqb (a b : number) : bool :=
  match a, b with
  | Finite m1 e1, Finite m2 e2 =>
      if (e1 <=? e2)%Z
      then (m1 =? m2 * 10 ^ (e2 - e1))%Z
      else (m1 * 10 ^ (e1 - e2) =? m2)%Z
  | PosInf, PosInf => true
  | NegInf, NegInf => true
  | _, _ => false
  end.

(** [a === b], where at least one side was freshly produced by
    [JSON.parse] or is a primitive: two objects or arrays are then never
    the same reference. *)
Definition strict_eq (a b : jsval) : bool :=
  match a, b with
  | Undefined, Undefined => true
  | Val JNull, Val JNull => true
  | Val (JBool x), Val (JBool y) => Bool.eqb x y
  | Val (JNum x), Val (JNum y) => number_eqb x y
  | Val (JStr x), Val (JStr y) => JsString.eqb x y
  | _, _ => false
  end.

(** ToBoolean. *)
Definition truthy (v : jsval) : bool :=
  match v with
  | Undefined => false
  | Val JNull => false
  | Val (JBool b) => b
  | Val (JNum (Finite m _)) => negb (m =? 0)%Z
  | Val (JNum _) => true
  | Val (JStr s) => match s with [] => false | _ => true end
  | Val (JArr _) => true
  | Val (JObj _) => true
  end.

(** [a || b] *)
Definition or_js (a b : jsval) : jsval := if truthy a then a else b.

(** Own property [k] of an object built by [JSON.parse] or by an object
    literal: the last binding of [k] wins. *)
Fixpoint lookup (k : jsstring) (fields : list (jsstring * json)) : jsval :=
  match fields with
  | [] => Undefined
  | (k', v) :: r =>
      match lookup k r with
      | Undefined => if JsString.eqb k k' then Val v else Undefined
      | found => found
      end
  end.

(** The property read [o.k] for a key that no built-in prototype defines
    ([id], [code], [result], [error]): [None] is the TypeError raised on
    [null]; primitives and arrays answer [undefined]. *)
Definition get (o : json) (k : jsstring) : option jsval :=
  match o with
  | JNull => None
  | JObj fields => Some (lookup k fields)
  | _ => Some Undefined
  end.

Definition is_array (j : json) : bool :=
  match j with JArr _ => true | _ => false end.

(** What [express.json()] in its default strict mode hands to a handler:
    an object or an array (an absent body is the empty object). *)
Definition is_container (j : json) : bool :=
  match j with JArr _ | JObj _ => true | _ => false end.

End Json.
Import Json.

(* ================================================================== *)
(** ** A reference [JSON.parse]

    The session is stated over an arbitrary parser (see [Section Session]);
    this one follows the JSON grammar of ECMA-404 and is used to run the
    session on concrete subprocess output. A number literal is kept as its
    exact decimal value, without the rounding to binary64. *)

Module JsonParse.

Fixpoint skip_ws (s : jsstring) : jsstring :=
  match s with
  | c :: r => if (c =? 32) || (c =? 9) || (c =? 10) || (c =? 13)
              then skip_ws r else s
  | [] => []
  end.

Definition is_digit (c : N) : bool := (48 <=? c) && (c <=? 57).

Definition hex_value (c : N) : option N :=
  if is_digit c then Some (c - 48)
  else if (97 <=? c) && (c <=? 102) then Some (c - 87)
  else if (65 <=? c) && (c <=? 70) then Some (c - 55)
  else None.

Definition hex4 (a b c d : N) : option N :=
  match hex_value a, hex_value b, hex_value c, hex_value d with
  | Some x, Some y, Some z, Some w => Some (((x * 16 + y) * 16 + z) * 16 + w)
  | _, _, _, _ => None
  end.

Definition simple_escape (e : N) : option N :=
  if e =? 34 then Some 34 else if e =? 92 then Some 92
  else if e =? 47 then Some 47 else if e =? 98 then Some 8
  else if e =? 102 then Some 12 else if e =? 110 then Some 10
  else if e =? 114 then Some 13 else if e =? 116 then Some 9
  else None.

(** After the opening quote: the string's code units and the text after
    the closing quote. *)
Fixpoint string_body (s acc : jsstring) : option (jsstring * jsstring) :=
  match s with
  | [] => None
  | c :: r =>
      if c =? 34 then Some (rev acc, r)
      else if c =? 92 then
        match r with
        | e :: r1 =>
            if e =? 117 then
              match r1 with
              | a :: (b :: (x :: (d :: r5) as r4) as r3) as r2 =>
                  match hex4 a b x d with
                  | Some u => string_body r5 (u :: acc)
                  | None => None
                  end
              | _ => None
              end
            else match simple_escape e with
                 | Some u => string_body r1 (u :: acc)
                 | None => None
                 end
        | [] => None
        end
      else if c <? 32 then None
      else string_body r (c :: acc)
  end.

Fixpoint digits (s : jsstring) (acc : Z) (n : Z) : Z * Z * jsstring :=
  match s with
  | c :: r => if is_digit c
              then digits r (acc * 10 + Z.of_N (c - 48))%Z (n + 1)%Z
              else (acc, n, s)
  | [] => (acc, n, [])
  end.

(** int frac? exp? after an optional minus sign. *)
Definition number_literal (s : jsstring) : option (number * jsstring) :=
  let '(neg, s1) := match s with
                    | c :: r => if c =? 45 then (true, r) else (false, s)
                    | [] => (false, s)
                    end in
  match s1 with
  | d :: r1 =>
      if is_digit d then
        let '(ip, s2) :=
          if d =? 48 then (0%Z, r1)
          else let '(v, _, rest) := digits s1 0%Z 0%Z in (v, rest) in
        let frac :=
          match s2 with
          | p :: r2 =>
              if p =? 46 then
                let '(v, n, rest) := digits r2 ip 0%Z in
                if (n =? 0)%Z then None else Some (v, n, rest)
              else Some (ip, 0%Z, s2)
          | [] => Some (ip, 0%Z, s2)
          end in
        match frac with
        | None => None
        | Some (m, fl, s3) =>
            let signed := if neg then (- m)%Z else m in
            match s3 with
            | x :: r3 =>
                if (x =? 101) || (x =? 69) then
                  let '(eneg, s4) :=
                    match r3 with
                    | g :: r4 => if g =? 45 then (true, r4)
                                 else if g =? 43 then (false, r4)
                                 else (false, r3)
                    | [] => (false, r3)
                    end in
                  let '(ev, en, s5) := digits s4 0%Z 0%Z in
                  if (en =? 0)%Z then None
                  else Some (Finite signed
                               ((if eneg then - ev else ev) - fl)%Z, s5)
                else Some (Finite signed (- fl)%Z, s3)
            | [] => Some (Finite signed (- fl)%Z, s3)
            end
        end
      else None
  | [] => None
  end.

Fixpoint strip_prefix (p s : jsstring) : option jsstring :=
  match p, s with
  | [], _ => Some s
  | a :: p', b :: s' => if a =? b then strip_prefix p' s' else None
  | _ :: _, [] => None
  end.

Fixpoint value (fuel : nat) (s : jsstring) : option (json * jsstring) :=
  match fuel with
  | O => None
  | S f =>
      match skip_ws s with
      | [] => None
      | c :: r =>
          if c =? 123 then
            match skip_ws r with
            | 125 :: r' => Some (JObj [], r')
            | _ => members f r []
            end
          else if c =? 91 then
            match skip_ws r with
            | 93 :: r' => Some (JArr [], r')
            | _ => elements f r []
            end
          else if c =? 34 then
            match string_body r [] with
            | Some (str, r') => Some (JStr str, r')
            | None => None
            end
          else if c =? 116 then
            option_map (fun r' => (JBool true, r')) (strip_prefix (js "rue") r)
          else if c =? 102 then
            option_map (fun r' => (JBool false, r'))
                       (strip_prefix (js "alse") r)
          else if c =? 110 then
            option_map (fun r' => (JNull, r')) (strip_prefix (js "ull") r)
          else
            match number_literal (c :: r) with
            | Some (n, r') => Some (JNum n, r')
            | None => None
            end
      end
  end
with elements (fuel : nat) (s : jsstring) (acc : list json)
  : option (json * jsstring) :=
  match fuel with
  | O => None
  | S f =>
      match value f s with
      | Some (v, r) =>
          match skip_ws r with
          | 44 :: r' => elements f r' (v :: acc)
          | 93 :: r' => Some (JArr (rev (v :: acc)), r')
          | _ => None
          end
      | None => None
      end
  end
with members (fuel : nat) (s : jsstring) (acc : list (jsstring * json))
  : option (json * jsstring) :=
  match fuel with
  | O => None
  | S f =>
      match skip_ws s with
      | 34 :: r =>
          match string_body r [] with
          | Some (k, r1) =>
              match skip_ws r1 with
              | 58 :: r2 =>
                  match value f r2 with
                  | Some (v, r3) =>
                      match skip_ws r3 with
                      | 44 :: r4 => members f r4 ((k, v) :: acc)
                      | 125 :: r4 => Some (JObj (rev ((k, v) :: acc)), r4)
                      | _ => None
                      end
                  | None => None
                  end
              | _ => None
              end
          | None => None
          end
      | _ => None
      end
  end.

(** [JSON.parse(s)]; [None] is the SyntaxError. *)
Definition json_parse (s : jsstring) : option json :=
  match value (2 * List.length s + 2) s with
  | Some (v, r) => match skip_ws r with [] => Some v | _ => None end
  | None => None
  end.

End JsonParse.

(* ================================================================== *)
(** ** The session: [callMcpServer] *)

Module Gateway.

(** What the promise is rejected with. [message] is the [message] of the
    Error object. *)
Inductive failure :=
| ProcessError (message : jsstring)        (* the err of the 'error' event *)
| ExitError (code : Z) (stderr : jsstring) (* built in the 'exit' callback *)
| TimeoutError.                            (* built in the timer callback *)

Definition decimal (z : Z) : jsstring :=
  js (NilZero.string_of_int (Z.to_int z)).

Definition message (e : failure) : jsstring :=
  match e with
  | ProcessError m => m
  | ExitError code err =>
      js "MCP server exited with code " ++ decimal code ++ js ": " ++ err
  | TimeoutError => js "MCP server timeout after 60s"
  end.

(** What a session does to the outside world, in the order it does it.
    [Write m] is [proc.stdin.write(JSON.stringify(m) + '\n')]. *)
Inductive effect :=
| Spawn
| Write (m : json)
| Kill
| Resolve (m : json)
| Reject (e : failure).

(** The variables of the closure of [callMcpServer]. [timer] tells whether
    the timeout set at the end of the executor is still pending. *)
Record session := {
  request : json;
  stdout : jsstring;
  stderr : jsstring;
  initialized : bool;
  requestSent : bool;
  timer : bool;
  log : list effect
}.

Definition initMsg : json :=
  JObj [ (js "jsonrpc", JStr (js "2.0"));
         (js "id", JStr (js "init"));
         (js "method", JStr (js "initialize"));
         (js "params",
          JObj [ (js "protocolVersion", JStr (js "2024-11-05"));
                 (js "capabilities", JObj []);
                 (js "clientInfo",
                  JObj [ (js "name", JStr (js "letta-gateway"));
                         (js "version", JStr (js "1.0.0")) ]) ]) ].

(** The state when the executor of the promise returns: the subprocess is
    spawned, the handshake is written and the timeout is set. *)
Definition start (req : json) : session :=
  {| request := req; stdout := []; stderr := [];
     initialized := false; requestSent := false; timer := true;
     log := [Spawn; Write initMsg] |}.

(** What the subprocess and the timer can deliver to the callbacks. *)
Inductive event :=
| StdoutData (chunk : buffer)
| StderrData (chunk : buffer)
| ProcError (message : jsstring)
| ProcExit (code : option Z)         (* [None] is the null code *)
| TimerFired.

(** The promise takes the first [resolve] or [reject]; later ones do
    nothing. *)
Inductive settlement :=
| Resolved (m : json)
| Rejected (e : failure).

Fixpoint settled (l : list effect) : option settlement :=
  match l with
  | [] => None
  | Resolve m :: _ => Some (Resolved m)
  | Reject e :: _ => Some (Rejected e)
  | _ :: r => settled r
  end.

Definition kills (l : list effect) : nat :=
  List.length (filter (fun e => match e with Kill => true | _ => false end) l).

Definition spawns (l : list effect) : nat :=
  List.length (filter (fun e => match e with Spawn => true | _ => false end) l).

(** The first settling effect of a log with the number of [proc.kill()]
    calls made before it. *)
Fixpoint first_settle (l : list effect) (k : nat)
  : option (settlement * nat) :=
  match l with
  | [] => None
  | Resolve m :: _ => Some (Resolved m, k)
  | Reject e :: _ => Some (Rejected e, k)
  | Kill :: r => first_settle r (S k)
  | _ :: r => first_settle r k
  end.

(** The number of [proc.kill()] calls that precede each way of settling. *)
Definition kills_before (st : settlement) : nat :=
  match st with
  | Resolved _ => 1
  | Rejected TimeoutError => 1
  | Rejected _ => 0
  end.

(** [m] answers [req]: its [id] is strictly equal to the [id] of [req]. *)
Definition answers (req m : json) : Prop :=
  exists mid rid,
    get m (js "id") = Some mid /\ get req (js "id") = Some rid /\
    strict_eq mid rid = true.

(** While the promise is pending the timer is pending and nothing has been
    killed; once it is settled, the kills made before it settled are those
    of the way it settled. *)
Definition settle_invariant (s : session) : Prop :=
  match first_settle (log s) 0 with
  | None => timer s = true /\ kills (log s) = 0%nat
  | Some (st, k) => k = kills_before st
  end.

(** Every message passed to [resolve] answers the request. *)
Definition answer_invariant (s : session) : Prop :=
  forall m, In (Resolve m) (log s) -> answers (request s) m.

(** The log opens with the spawn and the handshake, and nothing else is
    spawned. *)
Definition handshake_first (s : session) : Prop :=
  exists rest, log s = Spawn :: Write initMsg :: rest /\ spawns rest = 0%nat.

Definition emit (s : session) (es : list effect) : session :=
  {| request := request s; stdout := stdout s; stderr := stderr s;
     initialized := initialized s; requestSent := requestSent s;
     timer := timer s; log := log s ++ es |}.

Definition set_stdout (s : session) (text : jsstring) : session :=
  {| request := request s; stdout := text; stderr := stderr s;
     initialized := initialized s; requestSent := requestSent s;
     timer := timer s; log := log s |}.

Definition set_stderr (s : session) (text : jsstring) : session :=
  {| request := request s; stdout := stdout s; stderr := text;
     initialized := initialized s; requestSent := requestSent s;
     timer := timer s; log := log s |}.

Definition clear_timeout (s : session) : session :=
  {| request := request s; stdout := stdout s; stderr := stderr s;
     initialized := initialized s; requestSent := requestSent s;
     timer := false; log := log s |}.

Definition mark_initialized (s : session) : session :=
  {| request := request s; stdout := stdout s; stderr := stderr s;
     initialized := true; requestSent := true;
     timer := timer s; log := log s ++ [Write (request s)] |}.

Section Session.

(** [JSON.parse]; [None] is the SyntaxError it throws. *)
Variable JSON_parse : jsstring -> option json.

(** The body of the [for] loop of the stdout callback, for [lines[i]]. An
    exception inside the [try] (from [JSON.parse], or reading [.id] of
    [null]) leaves the session as it is. *)
Definition on_line (s : session) (raw : jsstring) : session :=
  let line := trim raw in
  match line with
  | [] => s
  | _ =>
      match JSON_parse line with
      | None => s
      | Some msg =>
          match get msg (js "id") with
          | None => s
          | Some mid =>
              if strict_eq mid (Val (JStr (js "init")))
                 && negb (initialized s)
              then mark_initialized s
              else
                match get (request s) (js "id") with
                | None => s
                | Some rid =>
                    if strict_eq mid rid
                    then emit (clear_timeout s) [Kill; Resolve msg]
                    else s
                end
          end
      end
  end.

(** The stdout callback after [chunk.toString()]. *)
Definition on_text (s : session) (text : jsstring) : session :=
  let lines := split_nl (stdout s ++ text) in
  set_stdout (fold_left on_line (removelast lines) s) (last lines []).

Definition step (s : session) (ev : event) : session :=
  match ev with
  | StdoutData chunk => on_text s (toString chunk)
  | StderrData chunk => set_stderr s (stderr s ++ toString chunk)
  | ProcError m => emit (clear_timeout s) [Reject (ProcessError m)]
  | ProcExit code =>
      match code with
      | Some c => if (c =? 0)%Z then s
                  else emit s [Reject (ExitError c (stderr s))]
      | None => s
      end
  | TimerFired =>
      if timer s
      then emit (clear_timeout s) [Kill; Reject TimeoutError]
      else s
  end.

Definition run (s : session) (evs : list event) : session :=
  fold_left step evs s.

Definition callMcpServer (req : json) (evs : list event) : session :=
  run (start req) evs.

Definition outcome (s : session) : option settlement := settled (log s).

(** The decoded text of a stdout line answers the caller's request: it
    parses to a message whose [id] is strictly equal to [request.id]. *)
Definition correlated (req : json) (raw : jsstring) : bool :=
  match trim raw with
  | [] => false
  | line =>
      match JSON_parse line with
      | Some msg =>
          match get msg (js "id"), get req (js "id") with
          | Some mid, Some rid => strict_eq mid rid
          | _, _ => false
          end
      | None => false
      end
  end.

(** The three things the loop body can do with a line. *)
Inductive line_action (s : session) (raw : jsstring) : session -> Prop :=
| Skipped :
    line_action s raw s
| Handshake :
    initialized s = false ->
    line_action s raw (mark_initialized s)
| Answer msg mid rid :
    get msg (js "id") = Some mid ->
    get (request s) (js "id") = Some rid ->
    strict_eq mid rid = true ->
    correlated (request s) raw = true ->
    line_action s raw (emit (clear_timeout s) [Kill; Resolve msg]).

(** A line that the loop skips: blank, or rejected by [JSON.parse]. *)
Definition noise (raw : jsstring) : bool :=
  match trim raw with
  | [] => true
  | line => match JSON_parse line with None => true | Some _ => false end
  end.

(** The text that the stdout callback has received over a trace. *)
Fixpoint stdout_text (evs : list event) : jsstring :=
  match evs with
  | [] => []
  | StdoutData chunk :: r => toString chunk ++ stdout_text r
  | _ :: r => stdout_text r
  end.

(** Events under which the session can only wait: no 'error' event, no
    exit with a non-zero code, and the timer has not fired. *)
Definition quiet (ev : event) : bool :=
  match ev with
  | ProcError _ => false
  | ProcExit (Some c) => (c =? 0)%Z
  | TimerFired => false
  | _ => true
  end.

End Session.

(* ------------------------------------------------------------------ *)
(** ** The HTTP handlers *)

(** What a handler has done with [res]: nothing yet, a response sent
    ([res.status(n).json(body)], 200 when no status is set), or an
    exception that left the handler. *)
Inductive http_result :=
| NoResponse
| Sent (status : N) (body : jsval)
| Threw.

(** The promise returned by [Promise.all]. *)
Inductive promise_all :=
| AllPending
| AllResolved (values : list json)
| AllRejected (e : failure).

(** The sessions of one [POST /mcp], in the order of the requests, and the
    state of [Promise.all] over their promises. *)
Record batch := {
  sessions : list session;
  all : promise_all
}.

Fixpoint replace_nth {A} (i : nat) (x : A) (l : list A) : list A :=
  match l, i with
  | [], _ => []
  | _ :: r, O => x :: r
  | y :: r, S j => y :: replace_nth j x r
  end.

(** The values of the promises when every one of them is resolved. *)
Fixpoint resolved_values (ss : list session) : option (list json) :=
  match ss with
  | [] => Some []
  | s :: r =>
      match settled (log s), resolved_values r with
      | Some (Resolved m), Some ms => Some (m :: ms)
      | _, _ => None
      end
  end.

(** What [Promise.all] knows of its promises: pending, none of them is
    rejected; resolved, its values are theirs, in order; rejected, its
    reason is the reason of one of them. *)
Definition all_invariant (b : batch) : Prop :=
  match all b with
  | AllPending =>
      Forall (fun s => forall e, settled (log s) <> Some (Rejected e))
             (sessions b)
  | AllResolved vs =>
      Forall2 (fun s m => settled (log s) = Some (Resolved m)) (sessions b) vs
  | AllRejected e =>
      Exists (fun s => settled (log s) = Some (Rejected e)) (sessions b)
  end.

Definition batch_invariant (requests : list json) (b : batch) : Prop :=
  map request (sessions b) = requests
  /\ Forall (fun s => handshake_first s /\ answer_invariant s) (sessions b)
  /\ all_invariant b.

(** [x || null] as a JSON value. *)
Definition or_null (x : jsval) : json :=
  match or_js x (Val JNull) with
  | Val j => j
  | Undefined => JNull
  end.

Definition error_envelope (id : jsval) (e : failure) : json :=
  JObj [ (js "jsonrpc", JStr (js "2.0"));
         (js "id", or_null id);
         (js "error",
          JObj [ (js "code", JNum (Finite (-32603) 0));
                 (js "message", JStr (message e)) ]) ].

(** The synthetic request of [POST /run]; [uuid] is what
    [crypto.randomUUID()] returned. *)
Definition run_request (uuid : jsstring) (code : json) : json :=
  JObj [ (js "jsonrpc", JStr (js "2.0"));
         (js "id", JStr uuid);
         (js "method", JStr (js "tools/call"));
         (js "params",
          JObj [ (js "name", JStr (js "run_code"));
                 (js "arguments", JObj [ (js "code", code) ]) ]) ].

Definition code_required : json :=
  JObj [ (js "error", JStr (js "code is required")) ].

Definition spawned (ss : list session) : nat :=
  list_sum (map (fun s => spawns (log s)) ss).

Section Handlers.

Variable JSON_parse : jsstring -> option json.

(** [Array.isArray(body) ? body : [body]] *)
Definition mcp_requests (body : json) : list json :=
  match body with
  | JArr l => l
  | _ => [body]
  end.

(** [requests.map(r => callMcpServer(r))] under [Promise.all], before any
    event of a subprocess is delivered. *)
Definition dispatch (requests : list json) : batch :=
  let ss := map start requests in
  {| sessions := ss;
     all := match resolved_values ss with
            | Some vs => AllResolved vs
            | None => AllPending
            end |}.

(** One event delivered to the session of index [i]. [Promise.all]
    rejects with the first rejection among its promises and resolves once
    all of them are resolved. *)
Definition deliver (b : batch) (iev : nat * event) : batch :=
  let '(i, ev) := iev in
  match nth_error (sessions b) i with
  | None => b
  | Some s =>
      let s' := step JSON_parse s ev in
      let ss := replace_nth i s' (sessions b) in
      {| sessions := ss;
         all :=
           match all b with
           | AllPending =>
               match settled (log s), settled (log s') with
               | None, Some (Rejected e) => AllRejected e
               | _, _ =>
                   match resolved_values ss with
                   | Some vs => AllResolved vs
                   | None => AllPending
                   end
               end
           | done => done
           end |}
  end.

(** The handler of [POST /mcp] while the events of [trace] are delivered,
    each to the session it names. *)
Definition post_mcp (body : json) (trace : list (nat * event)) : batch :=
  fold_left deliver trace (dispatch (mcp_requests body)).

(** What the handler has sent once [Promise.all] has settled. *)
Definition mcp_result (body : json) (b : batch) : http_result :=
  match all b with
  | AllPending => NoResponse
  | AllResolved responses =>
      if is_array body
      then Sent 200 (Val (JArr responses))
      else Sent 200 (match responses with
                     | r :: _ => Val r
                     | [] => Undefined
                     end)
  | AllRejected err =>
      match get body (js "id") with
      | Some id => Sent 500 (Val (error_envelope id err))
      | None => Threw
      end
  end.

(** The handler of [POST /run]: the sessions it has started and what it
    has sent, when [events] are delivered to its session. *)
Definition post_run (uuid : jsstring) (body : json) (events : list event)
  : list session * http_result :=
  match get body (js "code") with
  | None => ([], Threw)
  | Some Undefined => ([], Sent 400 (Val code_required))
  | Some (Val code) =>
      if negb (truthy (Val code)) then ([], Sent 400 (Val code_required))
      else
        let s := callMcpServer JSON_parse (run_request uuid code) events in
        ([s],
         match outcome s with
         | None => NoResponse
         | Some (Resolved response) =>
             match get response (js "result"), get response (js "error") with
             | Some result, Some error => Sent 200 (or_js result error)
             | _, _ =>
                 Sent 500 (Val (JObj [ (js "error", JStr (js
                   "Cannot read properties of null (reading 'result')")) ]))
             end
         | Some (Rejected err) =>
             Sent 500 (Val (JObj [ (js "error", JStr (message err)) ]))
         end)
  end.

End Handlers.

End Gateway.
Import Gateway.

(* ================================================================== *)
(** ** Sample traffic *)

Module Samples.

Import JsonParse.

Definition lf : buffer := [x0a].

(** A caller request with the identifier 'abc'. *)
Definition req_abc : json :=
  JObj [ (js "jsonrpc", JStr (js "2.0"));
         (js "id", JStr (js "abc"));
         (js "method", JStr (js "tools/list")) ].

(** A caller request that uses the identifier 'init'. *)
Definition req_init : json :=
  JObj [ (js "jsonrpc", JStr (js "2.0"));
         (js "id", JStr (js "init"));
         (js "method", JStr (js "tools/list")) ].

(** A caller request whose identifier is the one-letter string U+00E9. *)
Definition req_accent : json :=
  JObj [ (js "jsonrpc", JStr (js "2.0"));
         (js "id", JStr [233]);
         (js "method", JStr (js "tools/list")) ].

Definition init_ack : buffer :=
  quoted_buffer "{'jsonrpc':'2.0','id':'init','result':{}}" ++ lf.

Definition answer_abc : buffer :=
  quoted_buffer "{'jsonrpc':'2.0','id':'abc','result':{}}" ++ lf.

Definition answer_init : buffer :=
  quoted_buffer "{'jsonrpc':'2.0','id':'init','result':{'tools':[]}}" ++ lf.

Definition log_line : buffer :=
  ascii_buffer "E2B MCP server running on stdio" ++ lf.

(** The response of the specification's example, in its two pieces. *)
Definition piece1 : buffer := quoted_buffer "{'jsonrpc':'2.0','id'".
Definition piece2 : buffer := quoted_buffer ":'abc','result':{}}" ++ lf.

(** A response whose result is the one-letter string U+00E9, whose UTF-8
    encoding is the two bytes C3 A9, cut between these two bytes. *)
Definition accent1 : buffer :=
  quoted_buffer "{'jsonrpc':'2.0','id':'abc','result':'" ++ [xc3].
Definition accent2 : buffer := [xa9] ++ quoted_buffer "'}" ++ lf.

(** A response to [req_accent], cut inside its identifier. *)
Definition accent_id1 : buffer :=
  quoted_buffer "{'jsonrpc':'2.0','id':'" ++ [xc3].
Definition accent_id2 : buffer :=
  [xa9] ++ quoted_buffer "','result':{}}" ++ lf.

Definition msg_abc (result : json) : json :=
  JObj [ (js "jsonrpc", JStr (js "2.0"));
         (js "id", JStr (js "abc"));
         (js "result", result) ].

Definition msg_init : json :=
  JObj [ (js "jsonrpc", JStr (js "2.0"));
         (js "id", JStr (js "init"));
         (js "result", JObj [ (js "tools", JArr []) ]) ].

Definition enoent : jsstring := js "spawn node ENOENT".

(** The lines of a chunk with two noise lines around a response. *)
Definition noisy_lines : list jsstring :=
  [ js "E2B MCP server running on stdio";
    jq "{'jsonrpc':'2.0','id':'abc','result':{}}";
    js "debug: done" ].

Definition noisy_chunk : buffer :=
  log_line ++ answer_abc ++ ascii_buffer "debug: done" ++ lf.

Definition run_body (code : jsstring) : json :=
  JObj [ (js "code", JStr code) ].

Definition uuid : jsstring := js "3b241101-e2bb-4255-8caf-4136c566a962".

Definition answer_uuid : buffer :=
  quoted_buffer
    "{'jsonrpc':'2.0','id':'3b241101-e2bb-4255-8caf-4136c566a962','result':{'content':[]}}"
  ++ lf.

End Samples.

(* ================================================================== *)
(** ** What a trace shows of a session *)

Module Observations.

(** The text that the stderr callback has received over a trace. *)
Fixpoint stderr_text (evs : list event) : jsstring :=
  match evs with
  | [] => []
  | StderrData chunk :: r => toString chunk ++ stderr_text r
  | _ :: r => stderr_text r
  end.

(** The messages written to the stdin of the subprocess, in order. *)
Fixpoint writes (l : list effect) : list json :=
  match l with
  | [] => []
  | Write m :: r => m :: writes r
  | _ :: r => writes r
  end.

(** The events of a [POST /mcp] trace that belong to the session of index
    [i], in the order of the trace. *)
Fixpoint events_for (i : nat) (trace : list (nat * event)) : list event :=
  match trace with
  | [] => []
  | (j, ev) :: r =>
      if Nat.eqb i j then ev :: events_for i r else events_for i r
  end.

Definition armed (s : session) : nat := if timer s then 1%nat else 0%nat.

(** What has been written so far: the handshake alone before it is
    acknowledged, the handshake and the request after. *)
Definition stdin_invariant (s : session) : Prop :=
  writes (log s) = (if initialized s then [initMsg; request s] else [initMsg])
  /\ requestSent s = initialized s.

Section Lines.

Variable JSON_parse : jsstring -> option json.

(** The line acknowledges the handshake: it parses to a message whose
    [id] is the string 'init'. *)
Definition acknowledges (raw : jsstring) : bool :=
  match trim raw with
  | [] => false
  | line =>
      match JSON_parse line with
      | Some msg =>
          match get msg (js "id") with
          | Some mid => strict_eq mid (Val (JStr (js "init")))
          | None => false
          end
      | None => false
      end
  end.

(** [m] is what [JSON.parse] makes of the trimmed line. *)
Definition parsed_from (raw : jsstring) (m : json) : Prop :=
  trim raw <> [] /\ JSON_parse (trim raw) = Some m.

End Lines.

(** [Promise.all] is pending only while some promise is not resolved. *)
Definition pending_invariant (b : batch) : Prop :=
  all b = AllPending -> resolved_values (sessions b) = None.

Definition is_resolved (s : session) : Prop :=
  exists m, settled (log s) = Some (Resolved m).

Definition is_rejected (s : session) : Prop :=
  exists e, settled (log s) = Some (Rejected e).

End Observations.
Import Observations.

(* ================================================================== *)
(** ** The Matrix bridge (src/index.ts) *)

Module Bridge.

(** *** [askLetta]: the reply read from the agent's response *)

(** What the evaluation of an expression or a function body gives. *)
Inductive reply :=
| Threw                       (* a TypeError left the function *)
| Returned (v : jsval).

(** [a ?? b] *)
Definition coalesce (a b : jsval) : jsval :=
  match a with
  | Undefined | Val JNull => b
  | _ => a
  end.

(** The test of the loop on one message; [None] is the TypeError of
    reading a property of [null]. *)
Definition is_assistant (msg : json) : option bool :=
  match get msg (js "message_type"), get msg (js "assistant_message") with
  | Some t, Some a =>
      Some (strict_eq t (Val (JStr (js "assistant_message"))) || truthy a)
  | _, _ => None
  end.

(** [msg.assistant_message ?? msg.content ?? ''] *)
Definition assistant_reply (msg : json) : reply :=
  match get msg (js "assistant_message"), get msg (js "content") with
  | Some a, Some c => Returned (coalesce (coalesce a c) (Val (JStr [])))
  | _, _ => Threw
  end.

(** The [for ... of] loop: [Some r] when the loop ends the function with
    [r], [None] when it runs to its end. *)
Fixpoint first_assistant (messages : list json) : option reply :=
  match messages with
  | [] => None
  | msg :: rest =>
      match is_assistant msg with
      | None => Some Threw
      | Some true => Some (assistant_reply msg)
      | Some false => first_assistant rest
      end
  end.

Section Join.

(** ECMAScript ToString on a JSON value that is not a string (a number,
    a boolean, an array or an object). *)
Variable ToString : json -> jsstring.

Definition to_string (j : json) : jsstring :=
  match j with
  | JStr s => s
  | _ => ToString j
  end.

(** An element as [Array.prototype.join] writes it. *)
Definition join_item (v : jsval) : jsstring :=
  match v with
  | Undefined | Val JNull => []
  | Val j => to_string j
  end.

(** [items.join(sep)] *)
Fixpoint join (sep : jsstring) (items : list jsval) : jsstring :=
  match items with
  | [] => []
  | [v] => join_item v
  | v :: rest => join_item v ++ sep ++ join sep rest
  end.

(** [messages.filter(m => m.tool_return).map(m => m.tool_return)]; [None]
    is the TypeError on a [null] message. *)
Fixpoint tool_returns (messages : list json) : option (list jsval) :=
  match messages with
  | [] => Some []
  | m :: rest =>
      match get m (js "tool_return"), tool_returns rest with
      | Some t, Some ts => Some (if truthy t then t :: ts else ts)
      | _, _ => None
      end
  end.

Definition no_response : jsstring := js "(no response)".

(** The body of [askLetta] after [await res.json()], for the parsed
    response [data]. *)
Definition extract_reply (data : json) : reply :=
  match get data (js "messages") with
  | None => Threw
  | Some field =>
      match coalesce field (Val (JArr [])) with
      | Val (JArr messages) =>
          match first_assistant messages with
          | Some r => r
          | None =>
              match tool_returns messages with
              | None => Threw
              | Some ts =>
                  match join [10] ts with
                  | [] => Returned (Val (JStr no_response))
                  | fallback => Returned (Val (JStr fallback))
                  end
              end
          end
      | _ => Threw      (* not iterable, or a string: no [filter] *)
      end
  end.

End Join.

(** *** [handleMessage]: which events are answered *)

(** What [event.getId()] returns: a string or [undefined]. *)
Definition event_id := option jsstring.

Definition id_eqb (a b : event_id) : bool :=
  match a, b with
  | None, None => true
  | Some x, Some y => JsString.eqb x y
  | _, _ => false
  end.

(** ToBoolean of an identifier. *)
Definition id_truthy (i : event_id) : bool :=
  match i with
  | Some (_ :: _) => true
  | _ => false
  end.

(** The [Set] [processed], as the list of its elements in insertion
    order. *)
Definition id_set := list event_id.

Definition has (p : id_set) (i : event_id) : bool := existsb (id_eqb i) p.

Record matrix_event := {
  sender : option jsstring;      (* event.getSender() *)
  content : json;                (* event.getContent() *)
  id : event_id                  (* event.getId() *)
}.

(** The trimming of [processed] after an insertion. *)
Definition trim_processed (p : id_set) : id_set :=
  if (500 <? List.length p)%nat then
    match p with
    | first :: rest => if id_truthy first then rest else p
    | [] => p
    end
  else p.

(** How the synchronous part of [handleMessage] ends: it returns, it
    throws, or it goes on to answer [text]. *)
Inductive verdict :=
| Ignored
| Thrown
| Answer (text : jsstring).

Section Gate.

(** [OWNER_MXID] *)
Variable owner : jsstring.

(** [handleMessage] up to its first [await]: the new state of
    [processed] and the verdict. *)
Definition handleMessage (p : id_set) (ev : matrix_event) : id_set * verdict :=
  match sender ev with
  | Some from =>
      if JsString.eqb from owner then
        match get (content ev) (js "msgtype") with
        | None => (p, Thrown)
        | Some t =>
            if strict_eq t (Val (JStr (js "m.text"))) then
              if has p (id ev) then (p, Ignored)
              else
                let p' := trim_processed (p ++ [id ev]) in
                match get (content ev) (js "body") with
                | Some Undefined | Some (Val JNull) => (p', Ignored)
                | Some (Val (JStr s)) =>
                    match trim s with
                    | [] => (p', Ignored)
                    | text => (p', Answer text)
                    end
                | _ => (p', Thrown)
                end
            else (p, Ignored)
        end
      else (p, Ignored)
  | None => (p, Ignored)
  end.

(** [processed] after the events of a list, delivered in order. *)
Definition processed_after (p : id_set) (evs : list matrix_event) : id_set :=
  fold_left (fun q ev => fst (handleMessage q ev)) evs p.

(** An event that reaches [processed.add]: a text message of the owner
    whose identifier is not in [processed]. *)
Definition fresh_text (p : id_set) (ev : matrix_event) : Prop :=
  sender ev = Some owner
  /\ get (content ev) (js "msgtype") = Some (Val (JStr (js "m.text")))
  /\ has p (id ev) = false.

End Gate.

End Bridge.

(* ================================================================== *)
(** ** More sample traffic *)

Module MoreSamples.

Import Samples Bridge.

Definition boom : buffer := ascii_buffer "boom".

(** An agent response: a reasoning step, a tool return, the assistant's
    message and a malformed trailing entry. *)
Definition reasoning_msg : json :=
  JObj [ (js "message_type", JStr (js "reasoning_message"));
         (js "reasoning", JStr (js "thinking")) ].

Definition tool_msg : json :=
  JObj [ (js "message_type", JStr (js "tool_return_message"));
         (js "tool_return", JStr (js "42")) ].

Definition assistant_msg : json :=
  JObj [ (js "message_type", JStr (js "assistant_message"));
         (js "content", JStr (js "Hello")) ].

Definition letta_data (messages : list json) : json :=
  JObj [ (js "messages", JArr messages) ].

(** Stands for ToString where only strings are joined. *)
Definition object_string (j : json) : jsstring := js "[object Object]".

Definition owner_mxid : jsstring := js "@jadengarza:beeper.com".

Definition text_event (event : string) (body : string) : matrix_event :=
  {| sender := Some owner_mxid;
     content := JObj [ (js "msgtype", JStr (js "m.text"));
                       (js "body", JStr (js body)) ];
     id := Some (js event) |}.

Definition hello_event : matrix_event := text_event "$e1" "  hi there ".
Definition second_event : matrix_event := text_event "$e2" "again".

End MoreSamples.

(* ================================================================== *)
(** ** A long run of events *)

Module WindowSamples.

Import Bridge MoreSamples.

(** The identifier '$n'. *)
Definition numbered_id (n : nat) : event_id :=
  Some (36 :: decimal (Z.of_nat n)).

(** A text message of the owner with the identifier '$n'. *)
Definition numbered_event (n : nat) : matrix_event :=
  {| sender := Some owner_mxid;
     content := JObj [ (js "msgtype", JStr (js "m.text"));
                       (js "body", JStr (js "ping")) ];
     id := numbered_id n |}.

(** 505 messages: five more than [processed] keeps. *)
Definition long_run : list matrix_event := map numbered_event (seq 0 505).

(** 499 identifiers, for a set of 500 with one more in front. *)
Definition older_ids : id_set := map numbered_id (seq 1 499).

Fixpoint distinct (l : id_set) : bool :=
  match l with
  | [] => true
  | i :: r => negb (has r i) && distinct r
  end.

End WindowSamples.

(* ================================================================== *)
(** * Properties *)

(** ** Splitting text into lines *)

Lemma jsstring_eqb_eq a b : JsString.eqb a b = true <-> a = b.
Proof.
  unfold JsString.eqb. destruct (list_eq_dec N.eq_dec a b); split; congruence.
Qed.

Lemma split_nl_cons (s : jsstring) :
  exists l ls, split_nl s = l :: ls.
Proof.
  induction s as [|c r [l [ls IH]]]; simpl.
  - now exists [], [].
  - destruct (c =? 10); [now exists [], (split_nl r)|].
    rewrite IH. now exists (c :: l), ls.
Qed.

Lemma split_nl_not_nil (s : jsstring) : split_nl s <> [].
Proof. destruct (split_nl_cons s) as [l [ls E]]. now rewrite E. Qed.

(** Splitting a concatenation: the complete lines of the first part, then
    the split of what the first part left unfinished followed by the
    second part. *)
Lemma split_nl_app (a b : jsstring) :
  split_nl (a ++ b) = complete_lines a ++ split_nl (residue a ++ b).
Proof.
  unfold complete_lines, residue.
  induction a as [|c a IH]; [reflexivity|].
  cbn [app split_nl]. destruct (c =? 10) eqn:Ec.
  - rewrite IH. destruct (split_nl_cons a) as [l [ls E]]. rewrite E.
    reflexivity.
  - rewrite IH. destruct (split_nl_cons a) as [l [ls E]]. rewrite E.
    destruct ls as [|l' ls].
    + cbn [removelast last app split_nl]. rewrite Ec.
      destruct (split_nl_cons (l ++ b)) as [x [xs E']].
      rewrite E'. reflexivity.
    + reflexivity.
Qed.

Lemma last_app_r {A} (l l' : list A) (d : A) :
  l' <> [] -> last (l ++ l') d = last l' d.
Proof.
  intros H. induction l as [|x l IH]; [reflexivity|].
  cbn [app last]. rewrite IH.
  destruct (l ++ l') eqn:E; [|reflexivity].
  apply app_eq_nil in E. now destruct E.
Qed.

Lemma complete_lines_app (a b : jsstring) :
  complete_lines (a ++ b) = complete_lines a ++ complete_lines (residue a ++ b).
Proof.
  unfold complete_lines at 1. rewrite split_nl_app.
  rewrite removelast_app by apply split_nl_not_nil. reflexivity.
Qed.

Lemma residue_app (a b : jsstring) :
  residue (a ++ b) = residue (residue a ++ b).
Proof.
  unfold residue at 1. rewrite split_nl_app.
  rewrite last_app_r by apply split_nl_not_nil. reflexivity.
Qed.

Lemma split_nl_line (l rest : jsstring) :
  no_nl l -> split_nl (l ++ 10 :: rest) = l :: split_nl rest.
Proof.
  unfold no_nl. induction l as [|c l IH]; intros H; [reflexivity|].
  cbn [app split_nl].
  destruct (N.eqb_spec c 10) as [->|_]; [exfalso; apply H; now left|].
  rewrite IH; [reflexivity|]. intros Hin. apply H. now right.
Qed.

Lemma split_nl_unlines (ls : list jsstring) :
  Forall no_nl ls -> split_nl (unlines ls) = ls ++ [[]].
Proof.
  induction 1 as [|l ls Hl _ IH]; [reflexivity|].
  unfold unlines in *. cbn [map List.concat].
  rewrite <- app_assoc. cbn [app].
  rewrite split_nl_line by assumption. now rewrite IH.
Qed.

Lemma complete_lines_unlines (ls : list jsstring) :
  Forall no_nl ls -> complete_lines (unlines ls) = ls.
Proof.
  intros H. unfold complete_lines. rewrite split_nl_unlines by assumption.
  apply removelast_last.
Qed.

Lemma residue_unlines (ls : list jsstring) :
  Forall no_nl ls -> residue (unlines ls) = [].
Proof.
  intros H. unfold residue. rewrite split_nl_unlines by assumption.
  apply last_last.
Qed.

(** ** Decoding chunks *)

(** Decoding distributes over a cut that falls between two characters. *)
Lemma decode_app (a b : list N) :
  well_formed a = true -> decode (a ++ b) = decode a ++ decode b.
Proof.
  remember (List.length a) as n eqn:Hn. revert a Hn.
  induction n as [n IH] using lt_wf_ind. intros a Hn Hwf.
  assert (Hrec : forall r, (List.length r < List.length a)%nat ->
                           well_formed r = true ->
                           decode (r ++ b) = decode r ++ decode b).
  { intros r Hlt Hr. apply (IH (List.length r)); [lia|reflexivity|exact Hr]. }
  clear IH Hn.
  destruct a as [|b0 r0]; [reflexivity|].
  cbn [app decode well_formed] in *.
  destruct (b0 <? 128).
  { rewrite Hrec; [reflexivity|cbn; lia|exact Hwf]. }
  destruct (between 194 223 b0).
  { destruct r0 as [|b1 r1]; [discriminate|].
    cbn [app] in *. apply andb_true_iff in Hwf. destruct Hwf as [H1 Hwf].
    rewrite H1. rewrite Hrec; [reflexivity|cbn; lia|exact Hwf]. }
  destruct (between 224 239 b0).
  { destruct r0 as [|b1 [|b2 r2]]; try discriminate.
    cbn [app] in *.
    apply andb_true_iff in Hwf. destruct Hwf as [Hwf Hr].
    apply andb_true_iff in Hwf. destruct Hwf as [H1 H2].
    rewrite H1, H2. rewrite Hrec; [reflexivity|cbn; lia|exact Hr]. }
  destruct (between 240 244 b0); [|discriminate].
  destruct r0 as [|b1 [|b2 [|b3 r3]]]; try discriminate.
  cbn [app] in *.
  apply andb_true_iff in Hwf. destruct Hwf as [Hwf Hr].
  apply andb_true_iff in Hwf. destruct Hwf as [Hwf H3].
  apply andb_true_iff in Hwf. destruct Hwf as [H1 H2].
  rewrite H1, H2, H3. rewrite Hrec; [|cbn; lia|exact Hr].
  now rewrite app_assoc.
Qed.

Lemma toString_app (c1 c2 : buffer) :
  whole_characters c1 -> toString (c1 ++ c2) = toString c1 ++ toString c2.
Proof.
  unfold whole_characters, toString. intros H.
  rewrite map_app. now apply decode_app.
Qed.

Section SessionProperties.

Variable JSON_parse : jsstring -> option json.

Local Abbreviation on_line := (Gateway.on_line JSON_parse).
Local Abbreviation on_text := (Gateway.on_text JSON_parse).
Local Abbreviation step := (Gateway.step JSON_parse).
Local Abbreviation run := (Gateway.run JSON_parse).
Local Abbreviation callMcpServer := (Gateway.callMcpServer JSON_parse).
Local Abbreviation correlated := (Gateway.correlated JSON_parse).
Local Abbreviation noise := (Gateway.noise JSON_parse).
Local Abbreviation line_action := (Gateway.line_action JSON_parse).

(** ** The loop body *)

Lemma on_line_action (s : session) (raw : jsstring) :
  line_action s raw (on_line s raw).
Proof.
  unfold Gateway.on_line.
  destruct (trim raw) as [|c line] eqn:Ht; [constructor|].
  destruct (JSON_parse (c :: line)) as [msg|] eqn:Hp; [|constructor].
  destruct (get msg (js "id")) as [mid|] eqn:Hmid; [|constructor].
  destruct (strict_eq mid (Val (JStr (js "init"))) && negb (initialized s))
    eqn:Hinit.
  - apply andb_true_iff in Hinit. destruct Hinit as [_ Hi].
    apply negb_true_iff in Hi. now constructor.
  - destruct (get (request s) (js "id")) as [rid|] eqn:Hrid; [|constructor].
    destruct (strict_eq mid rid) eqn:Heq; [|constructor].
    econstructor; eauto. unfold Gateway.correlated.
    now rewrite Ht, Hp, Hmid, Hrid.
Qed.

Lemma on_line_set_stdout (s : session) (text raw : jsstring) :
  on_line (set_stdout s text) raw = set_stdout (on_line s raw) text.
Proof.
  unfold Gateway.on_line. destruct s as [rq so se ini sent tm lg]. cbn.
  destruct (trim raw); [reflexivity|].
  destruct (JSON_parse _); [|reflexivity].
  destruct (get _ _); [|reflexivity].
  destruct (_ && _); [reflexivity|].
  destruct (get rq _); [|reflexivity].
  destruct (strict_eq _ _); reflexivity.
Qed.

Lemma fold_on_line_set_stdout (ls : list jsstring) (s : session) text :
  fold_left on_line ls (set_stdout s text)
  = set_stdout (fold_left on_line ls s) text.
Proof.
  revert s. induction ls as [|l ls IH]; intros s; [reflexivity|].
  cbn [fold_left]. now rewrite on_line_set_stdout, IH.
Qed.

Lemma on_text_unfold (s : session) (text : jsstring) :
  on_text s text
  = set_stdout (fold_left on_line (complete_lines (stdout s ++ text)) s)
               (residue (stdout s ++ text)).
Proof. reflexivity. Qed.

Lemma stdout_fold_on_line (ls : list jsstring) (s : session) :
  stdout (fold_left on_line ls s) = stdout s.
Proof.
  revert s. induction ls as [|l ls IH]; intros s; [reflexivity|].
  cbn [fold_left]. rewrite IH.
  destruct (on_line_action s l); reflexivity.
Qed.

(** The line buffer reassembles text across deliveries: handing the
    callback two texts in turn is handing it their concatenation. *)
Lemma on_text_app (s : session) (t1 t2 : jsstring) :
  on_text (on_text s t1) t2 = on_text s (t1 ++ t2).
Proof.
  rewrite !on_text_unfold.
  replace (stdout (set_stdout _ (residue (stdout s ++ t1))))
    with (residue (stdout s ++ t1)) by reflexivity.
  rewrite fold_on_line_set_stdout.
  rewrite (app_assoc (stdout s) t1 t2).
  rewrite (complete_lines_app (stdout s ++ t1) t2).
  rewrite (residue_app (stdout s ++ t1) t2), fold_left_app.
  reflexivity.
Qed.

(** A chunk cut between two characters is handled as the whole chunk. *)
Lemma step_split (s : session) (c1 c2 : buffer) :
  whole_characters c1 ->
  step (step s (StdoutData c1)) (StdoutData c2) = step s (StdoutData (c1 ++ c2)).
Proof.
  intros H. cbn [Gateway.step].
  now rewrite toString_app, on_text_app.
Qed.

(** ** Effect logs *)

Lemma kills_app (l es : list effect) : kills (l ++ es) = (kills l + kills es)%nat.
Proof. unfold kills. now rewrite filter_app, length_app. Qed.

Lemma spawns_app (l es : list effect) :
  spawns (l ++ es) = (spawns l + spawns es)%nat.
Proof. unfold spawns. now rewrite filter_app, length_app. Qed.

Lemma first_settle_app (l es : list effect) (k : nat) :
  first_settle (l ++ es) k
  = match first_settle l k with
    | Some x => Some x
    | None => first_settle es (k + kills l)
    end.
Proof.
  revert k. induction l as [|e l IH]; intros k.
  - cbn. now rewrite Nat.add_0_r.
  - destruct e; cbn [app first_settle]; try reflexivity;
      rewrite IH; try reflexivity.
    + replace (k + kills (Kill :: l))%nat with (S k + kills l)%nat
        by (unfold kills; cbn; lia). reflexivity.
Qed.

Lemma settled_first_settle (l : list effect) (k : nat) :
  settled l = option_map fst (first_settle l k).
Proof.
  revert k. induction l as [|e l IH]; intros k; [reflexivity|].
  destruct e; cbn; auto.
Qed.

Lemma settled_app (l es : list effect) :
  settled (l ++ es)
  = match settled l with Some x => Some x | None => settled es end.
Proof.
  induction l as [|e l IH]; [reflexivity|]. destruct e; cbn; auto.
Qed.

Lemma settled_In (l : list effect) (m : json) :
  settled l = Some (Resolved m) -> In (Resolve m) l.
Proof.
  induction l as [|e l IH]; [discriminate|].
  destruct e; cbn; intros H;
    try discriminate; try (right; apply IH; exact H).
  left. congruence.
Qed.

(** ** Invariants of a session *)

(** A property kept by each thing a callback can do is kept by every
    event. *)
Lemma step_preserves (P : session -> Prop) :
  (forall s text, P s -> P (set_stdout s text)) ->
  (forall s text, P s -> P (set_stderr s text)) ->
  (forall s raw s', P s -> line_action s raw s' -> P s') ->
  (forall s m, P s -> P (emit (clear_timeout s) [Reject (ProcessError m)])) ->
  (forall s c, P s -> P (emit s [Reject (ExitError c (stderr s))])) ->
  (forall s, P s -> timer s = true ->
             P (emit (clear_timeout s) [Kill; Reject TimeoutError])) ->
  forall s ev, P s -> P (step s ev).
Proof.
  intros Hout Herr Hline Herror Hexit Htimer s ev Hs.
  destruct ev as [chunk|chunk|m|[c|]|]; cbn [Gateway.step]; auto.
  - rewrite on_text_unfold. apply Hout.
    generalize (complete_lines (stdout s ++ toString chunk)).
    intros ls. revert s Hs.
    induction ls as [|l ls IH]; intros s Hs; [exact Hs|].
    cbn [fold_left]. apply IH. eapply Hline; [exact Hs|].
    apply on_line_action.
  - destruct (c =? 0)%Z; auto.
  - destruct (timer s) eqn:Ht; auto.
Qed.

Lemma run_preserves (P : session -> Prop) :
  (forall s ev, P s -> P (step s ev)) ->
  forall evs s, P s -> P (run s evs).
Proof.
  intros Hstep evs. induction evs as [|ev evs IH]; intros s Hs; [exact Hs|].
  cbn. apply IH, Hstep, Hs.
Qed.

Lemma run_app (s : session) (evs1 evs2 : list event) :
  run s (evs1 ++ evs2) = run (run s evs1) evs2.
Proof. apply fold_left_app. Qed.

Lemma run_snoc (s : session) (evs : list event) (ev : event) :
  run s (evs ++ [ev]) = step (run s evs) ev.
Proof. now rewrite run_app. Qed.

(** Within any trace, a stdout chunk may be delivered in two pieces cut
    between two characters. *)
Lemma callMcpServer_split
  (req : json) (pre post : list event) (c1 c2 : buffer) :
  whole_characters c1 ->
  callMcpServer req (pre ++ StdoutData c1 :: StdoutData c2 :: post)
  = callMcpServer req (pre ++ StdoutData (c1 ++ c2) :: post).
Proof.
  intros H. unfold Gateway.callMcpServer. rewrite !run_app.
  cbn [Gateway.run fold_left]. f_equal. now apply step_split.
Qed.

Lemma request_step (s : session) (ev : event) :
  request (step s ev) = request s.
Proof.
  apply (step_preserves (fun s' => request s' = request s)); auto.
  intros s0 raw s' H Ha. destruct Ha; exact H.
Qed.

Lemma request_run (s : session) (evs : list event) :
  request (run s evs) = request s.
Proof.
  apply (run_preserves (fun s' => request s' = request s)); auto.
  intros s0 ev H. now rewrite request_step.
Qed.

Lemma settle_invariant_emit (s : session) (es : list effect) (tm : bool) :
  settle_invariant s ->
  (first_settle (log s) 0 = None ->
   match first_settle es 0 with
   | None => tm = true /\ kills es = 0%nat
   | Some (st, k) => k = kills_before st
   end) ->
  settle_invariant
    {| request := request s; stdout := stdout s; stderr := stderr s;
       initialized := initialized s; requestSent := requestSent s;
       timer := tm; log := log s ++ es |}.
Proof.
  unfold settle_invariant. cbn [log timer]. intros Hs Hes.
  rewrite first_settle_app.
  destruct (first_settle (log s) 0) as [[st k]|]; [exact Hs|].
  destruct Hs as [_ Hk]. rewrite Hk. cbn [Nat.add].
  specialize (Hes eq_refl).
  destruct (first_settle es 0) as [[st k]|]; [exact Hes|].
  destruct Hes as [-> Hes]. rewrite kills_app, Hk, Hes. auto.
Qed.

Lemma settle_invariant_step (s : session) (ev : event) :
  settle_invariant s -> settle_invariant (step s ev).
Proof.
  apply step_preserves; clear s ev.
  - intros s text H. exact H.
  - intros s text H. exact H.
  - intros s raw s' H Ha. destruct Ha as [|Hi|msg mid rid _ _ _ _].
    + exact H.
    + apply (settle_invariant_emit s [Write (request s)] (timer s) H).
      intros Hn. unfold settle_invariant in H. rewrite Hn in H.
      cbn. split; [apply H|reflexivity].
    + apply (settle_invariant_emit s [Kill; Resolve msg] false H).
      reflexivity.
  - intros s m H.
    apply (settle_invariant_emit s [Reject (ProcessError m)] false H).
    reflexivity.
  - intros s c H.
    apply (settle_invariant_emit s [Reject (ExitError c (stderr s))]
             (timer s) H).
    reflexivity.
  - intros s H _.
    apply (settle_invariant_emit s [Kill; Reject TimeoutError] false H).
    reflexivity.
Qed.

Lemma settle_invariant_start (req : json) : settle_invariant (start req).
Proof. unfold settle_invariant. cbn. auto. Qed.

Lemma settle_invariant_run (req : json) (evs : list event) :
  settle_invariant (callMcpServer req evs).
Proof.
  unfold Gateway.callMcpServer.
  apply run_preserves; [apply settle_invariant_step|].
  apply settle_invariant_start.
Qed.

Lemma answer_invariant_step (s : session) (ev : event) :
  answer_invariant s -> answer_invariant (step s ev).
Proof.
  apply step_preserves; clear s ev; unfold answer_invariant;
    cbn [log request emit clear_timeout set_stdout set_stderr];
    try (intros s x H m Hin; apply in_app_or in Hin;
         destruct Hin as [Hin|[Hin|[Hin|[]]]]; try discriminate;
         now apply H);
    try (intros s x H m Hin; apply in_app_or in Hin;
         destruct Hin as [Hin|[Hin|[]]]; try discriminate; now apply H);
    auto.
  - intros s raw s' H Ha m Hin.
    destruct Ha as [|Hi|msg mid rid Hm Hr He _]; cbn in Hin.
    + now apply H.
    + apply in_app_or in Hin. destruct Hin as [Hin|[Hin|[]]];
        [now apply H|discriminate].
    + apply in_app_or in Hin.
      destruct Hin as [Hin|[Hin|[Hin|[]]]];
        [now apply H|discriminate|].
      injection Hin as <-. cbn. now exists mid, rid.
  - intros s H _ m Hin. cbn in Hin. apply in_app_or in Hin.
    destruct Hin as [Hin|[Hin|[Hin|[]]]]; try discriminate. now apply H.
Qed.

Lemma answer_invariant_run (req : json) (evs : list event) :
  answer_invariant (callMcpServer req evs).
Proof.
  unfold Gateway.callMcpServer.
  apply run_preserves; [apply answer_invariant_step|].
  intros m [H|[H|[]]]; discriminate.
Qed.

Lemma handshake_first_step (s : session) (ev : event) :
  handshake_first s -> handshake_first (step s ev).
Proof.
  assert (Hemit : forall s es tm so se ini sent,
    spawns es = 0%nat -> handshake_first s ->
    handshake_first
      {| request := request s; stdout := so; stderr := se;
         initialized := ini; requestSent := sent;
         timer := tm; log := log s ++ es |}).
  { intros s0 es tm so se ini sent Hes [rest [Hl Hr]].
    exists (rest ++ es). cbn [log]. rewrite Hl. split; [reflexivity|].
    rewrite spawns_app. lia. }
  apply step_preserves; clear s ev; auto.
  - intros s raw s' H Ha. destruct Ha; [exact H| |]; now apply Hemit.
  - intros s m H. now apply Hemit.
  - intros s c H. now apply Hemit.
  - intros s H _. now apply Hemit.
Qed.

Lemma handshake_first_run (req : json) (evs : list event) :
  handshake_first (callMcpServer req evs).
Proof.
  unfold Gateway.callMcpServer.
  apply run_preserves; [apply handshake_first_step|].
  now exists [].
Qed.

(** ** Strict equality with a string *)

Lemma strict_eq_string_l (v : jsval) (str : jsstring) :
  strict_eq v (Val (JStr str)) = true -> v = Val (JStr str).
Proof.
  destruct v as [|[| | |x| |]]; cbn; try discriminate.
  intros H. apply jsstring_eqb_eq in H. now subst.
Qed.

Lemma strict_eq_string_r (v : jsval) (str : jsstring) :
  strict_eq (Val (JStr str)) v = true -> v = Val (JStr str).
Proof.
  destruct v as [|[| | |x| |]]; cbn; try discriminate.
  intros H. apply jsstring_eqb_eq in H. now subst.
Qed.

Lemma strict_eq_string_refl (str : jsstring) :
  strict_eq (Val (JStr str)) (Val (JStr str)) = true.
Proof. cbn. now apply jsstring_eqb_eq. Qed.

(** ** Waiting sessions *)

Lemma on_line_uncorrelated (s : session) (raw : jsstring) :
  correlated (request s) raw = false ->
  settled (log s) = None ->
  settled (log (on_line s raw)) = None
  /\ request (on_line s raw) = request s.
Proof.
  intros Hc Hs. destruct (on_line_action s raw) as [|Hi|msg mid rid _ _ _ Hc'].
  - auto.
  - cbn. rewrite settled_app, Hs. auto.
  - congruence.
Qed.

Lemma fold_on_line_uncorrelated (ls : list jsstring) (s : session) :
  Forall (fun raw => correlated (request s) raw = false) ls ->
  settled (log s) = None ->
  settled (log (fold_left on_line ls s)) = None.
Proof.
  revert s. induction ls as [|l ls IH]; intros s Hls Hs; [exact Hs|].
  inversion Hls as [|? ? Hl Hls']; subst. cbn [fold_left].
  destruct (on_line_uncorrelated s l Hl Hs) as [Hs' Hr].
  apply IH; [now rewrite Hr|exact Hs'].
Qed.

(** Under quiet events and without a correlated line, the promise stays
    pending. *)
Lemma run_quiet (evs : list event) (s : session) :
  settled (log s) = None ->
  Forall (fun ev => quiet ev = true) evs ->
  Forall (fun raw => correlated (request s) raw = false)
         (complete_lines (stdout s ++ stdout_text evs)) ->
  settled (log (run s evs)) = None.
Proof.
  revert s. induction evs as [|ev evs IH]; intros s Hs Hq Hl; [exact Hs|].
  inversion Hq as [|? ? Hev Hq']; subst. cbn [Gateway.run fold_left].
  apply IH; clear IH; [|exact Hq'|rewrite request_step];
    destruct ev as [chunk|chunk|m|[c|]|]; try discriminate;
    cbn [Gateway.step stdout_text set_stderr log stdout] in *;
    try assumption.
  - rewrite on_text_unfold. cbn [log set_stdout].
    apply fold_on_line_uncorrelated; [|exact Hs].
    rewrite app_assoc, complete_lines_app in Hl.
    now apply Forall_app in Hl.
  - cbn in Hev. now rewrite Hev.
  - rewrite on_text_unfold. cbn [stdout set_stdout].
    rewrite app_assoc, complete_lines_app in Hl.
    now apply Forall_app in Hl.
  - cbn in Hev. now rewrite Hev.
Qed.

Lemma pending_armed (req : json) (evs : list event) :
  outcome (callMcpServer req evs) = None ->
  timer (callMcpServer req evs) = true
  /\ kills (log (callMcpServer req evs)) = 0%nat.
Proof.
  intros H. pose proof (settle_invariant_run req evs) as Hi.
  unfold settle_invariant in Hi. unfold outcome in H.
  rewrite (settled_first_settle _ 0) in H.
  destruct (first_settle _ 0) as [[st k]|]; [discriminate|exact Hi].
Qed.

Lemma timer_settles (req : json) (evs : list event) :
  outcome (callMcpServer req (evs ++ [TimerFired])) <> None.
Proof.
  unfold Gateway.callMcpServer, outcome. rewrite run_snoc.
  cbn [Gateway.step].
  destruct (timer (run (start req) evs)) eqn:Ht.
  - cbn [log emit]. rewrite settled_app.
    destruct (settled _); discriminate.
  - intros H. apply (pending_armed req evs) in H.
    unfold Gateway.callMcpServer in H. destruct H as [H _]. congruence.
Qed.

Lemma timer_rejects (req : json) (evs : list event) :
  outcome (callMcpServer req evs) = None ->
  outcome (callMcpServer req (evs ++ [TimerFired]))
  = Some (Rejected TimeoutError)
  /\ kills (log (callMcpServer req (evs ++ [TimerFired]))) = 1%nat.
Proof.
  intros H. destruct (pending_armed req evs H) as [Ht Hk].
  unfold Gateway.callMcpServer, outcome in *. rewrite run_snoc.
  cbn [Gateway.step]. rewrite Ht.
  cbn [log emit clear_timeout]. rewrite settled_app, H, kills_app, Hk. auto.
Qed.

(** ** The handshake identifier *)

(** C2 (amended). The log of every session opens with the spawn and the
    handshake, whose [id] is the string 'init'. A message resolved to the
    caller has an [id] strictly equal to the [id] of the caller's request;
    so when the caller's [id] is not the string 'init', the resolved
    message does not carry the handshake identifier. *)
Theorem resolved_answers_request
  (req : json) (evs : list event) (m : json) :
  outcome (callMcpServer req evs) = Some (Resolved m) ->
  (exists rest, log (callMcpServer req evs) = Spawn :: Write initMsg :: rest)
  /\ get initMsg (js "id") = Some (Val (JStr (js "init")))
  /\ exists mid rid,
       get m (js "id") = Some mid /\ get req (js "id") = Some rid
       /\ strict_eq mid rid = true
       /\ (strict_eq rid (Val (JStr (js "init"))) = false ->
           strict_eq mid (Val (JStr (js "init"))) = false).
Proof.
  intros H. split; [|split; [reflexivity|]].
  - destruct (handshake_first_run req evs) as [rest [Hl _]]. now exists rest.
  - apply settled_In in H. apply answer_invariant_run in H.
    unfold Gateway.callMcpServer in H. rewrite request_run in H.
    destruct H as [mid [rid [Hm [Hr He]]]].
    exists mid, rid. repeat split; auto.
    intros Hne.
    destruct (strict_eq mid (Val (JStr (js "init")))) eqn:Hi; [|reflexivity].
    apply strict_eq_string_l in Hi. subst mid.
    apply strict_eq_string_r in He. subst rid.
    now rewrite strict_eq_string_refl in Hne.
Qed.

(** ** The timeout *)

(** C3 (amended). Once the timer has fired the promise is settled, whatever
    the subprocess did before. If, before the timer fires, no 'error'
    event and no non-zero exit occurred and no complete stdout line
    answers the request, then the timer callback kills the subprocess
    (the only kill of the session) and the promise is rejected with the
    timeout error. *)
Theorem timeout_settles (req : json) (evs : list event) :
  outcome (callMcpServer req (evs ++ [TimerFired])) <> None
  /\ (Forall (fun ev => quiet ev = true) evs ->
      Forall (fun raw => correlated req raw = false)
             (complete_lines (stdout_text evs)) ->
      outcome (callMcpServer req (evs ++ [TimerFired]))
      = Some (Rejected TimeoutError)
      /\ kills (log (callMcpServer req (evs ++ [TimerFired]))) = 1%nat).
Proof.
  split; [apply timer_settles|].
  intros Hq Hl. apply timer_rejects.
  unfold outcome, Gateway.callMcpServer. apply run_quiet; auto.
Qed.

(** ** Termination of the subprocess *)

(** C4 (amended). When the promise settles through a correlated response
    or through the timeout, exactly one [proc.kill()] has been issued
    before it settles; when it settles through an 'error' event or a
    non-zero exit, none has been issued. *)
Theorem kills_at_settlement
  (req : json) (evs : list event) (st : settlement) (k : nat) :
  first_settle (log (callMcpServer req evs)) 0 = Some (st, k) ->
  k = kills_before st.
Proof.
  intros H. pose proof (settle_invariant_run req evs) as Hi.
  unfold settle_invariant in Hi. now rewrite H in Hi.
Qed.

(** ** Clean exit *)

(** C10 (amended). When the subprocess exits with code 0 or with the null
    code while the promise is pending, the 'exit' callback changes
    nothing: the promise stays pending. If afterwards only quiet events
    arrive and no complete stdout line answers the request, it is the
    timer that settles the promise, with the timeout rejection; and
    whatever arrives afterwards, the promise is settled once the timer has
    fired. *)
Theorem clean_exit_leaves_pending
  (req : json) (pre : list event) (c : option Z) :
  c = None \/ c = Some 0%Z ->
  outcome (callMcpServer req pre) = None ->
  callMcpServer req (pre ++ [ProcExit c]) = callMcpServer req pre
  /\ (forall post,
        Forall (fun ev => quiet ev = true) post ->
        Forall (fun raw => correlated req raw = false)
               (complete_lines
                  (stdout (callMcpServer req pre) ++ stdout_text post)) ->
        outcome (callMcpServer req (pre ++ ProcExit c :: post ++ [TimerFired]))
        = Some (Rejected TimeoutError))
  /\ (forall post,
        outcome (callMcpServer req (pre ++ ProcExit c :: post ++ [TimerFired]))
        <> None).
Proof.
  intros Hc Hp.
  assert (Hexit : forall s, step s (ProcExit c) = s).
  { intros s. destruct Hc as [-> | ->]; reflexivity. }
  assert (E : callMcpServer req (pre ++ [ProcExit c]) = callMcpServer req pre).
  { unfold Gateway.callMcpServer. now rewrite run_snoc, Hexit. }
  split; [exact E|]. split; intros post.
  - intros Hq Hl.
    replace (pre ++ ProcExit c :: post ++ [TimerFired])
      with ((pre ++ [ProcExit c] ++ post) ++ [TimerFired])
      by (rewrite <- !app_assoc; reflexivity).
    apply timer_rejects.
    unfold outcome, Gateway.callMcpServer in *.
    rewrite app_assoc, run_app, E. apply run_quiet; auto.
    now rewrite request_run.
  - replace (pre ++ ProcExit c :: post ++ [TimerFired])
      with ((pre ++ [ProcExit c] ++ post) ++ [TimerFired])
      by (rewrite <- !app_assoc; reflexivity).
    apply timer_settles.
Qed.

(** ** Noise on stdout *)

Lemma on_line_noise (s : session) (raw : jsstring) :
  noise raw = true -> on_line s raw = s.
Proof.
  unfold Gateway.noise, Gateway.on_line.
  destruct (trim raw); [reflexivity|].
  destruct (JSON_parse _); [discriminate|reflexivity].
Qed.

Lemma fold_on_line_filter_noise (ls : list jsstring) (s : session) :
  fold_left on_line (filter (fun raw => negb (noise raw)) ls) s
  = fold_left on_line ls s.
Proof.
  revert s. induction ls as [|l ls IH]; intros s; [reflexivity|].
  cbn [filter fold_left]. destruct (noise l) eqn:Hn; cbn [negb].
  - rewrite on_line_noise by exact Hn. apply IH.
  - cbn [fold_left]. apply IH.
Qed.

Lemma Forall_filter_no_nl (f : jsstring -> bool) (ls : list jsstring) :
  Forall no_nl ls -> Forall no_nl (filter f ls).
Proof.
  induction 1 as [|l ls Hl _ IH]; [constructor|].
  cbn. destruct (f l); auto.
Qed.


End SessionProperties.

(* ================================================================== *)
(** ** Lists updated at an index *)

Lemma replace_nth_map {A B} (f : A -> B) (l : list A) (i : nat) (x y : A) :
  nth_error l i = Some y -> f x = f y ->
  map f (replace_nth i x l) = map f l.
Proof.
  revert i. induction l as [|z l IH]; intros [|i] H E; try discriminate.
  - cbn in *. congruence.
  - cbn in *. f_equal. now apply IH.
Qed.

Lemma replace_nth_Forall {A} (P : A -> Prop) (l : list A) (i : nat) (x : A) :
  Forall P l -> P x -> Forall P (replace_nth i x l).
Proof.
  intros H Hx. revert i.
  induction H as [|z l Hz Hl IH]; intros [|i]; cbn; auto.
Qed.

Lemma replace_nth_Exists_here {A} (P : A -> Prop)
  (l : list A) (i : nat) (x y : A) :
  nth_error l i = Some y -> P x -> Exists P (replace_nth i x l).
Proof.
  revert i. induction l as [|z l IH]; intros [|i] Hn Hx;
    cbn in *; try discriminate.
  - now left.
  - right. now apply IH.
Qed.

Lemma replace_nth_Forall2 {A B} (R : A -> B -> Prop)
  (l : list A) (vs : list B) (i : nat) (x y : A) :
  Forall2 R l vs -> nth_error l i = Some y ->
  (forall v, R y v -> R x v) ->
  Forall2 R (replace_nth i x l) vs.
Proof.
  intros H. revert i.
  induction H as [|z v l vs Hz Hl IH]; intros [|i] Hn Hx;
    cbn in *; try discriminate.
  - injection Hn as ->. constructor; auto.
  - constructor; auto.
Qed.

Lemma replace_nth_Exists {A} (P : A -> Prop) (l : list A) (i : nat) (x y : A) :
  Exists P l -> nth_error l i = Some y -> (P y -> P x) ->
  Exists P (replace_nth i x l).
Proof.
  intros H. revert i.
  induction H as [z l Hz|z l Hl IH]; intros [|i] Hn Hx;
    cbn in *; try discriminate.
  - injection Hn as ->. left. auto.
  - now left.
  - now right.
  - right. now apply IH.
Qed.

Lemma nth_error_Forall {A} (P : A -> Prop) (l : list A) (i : nat) (x : A) :
  Forall P l -> nth_error l i = Some x -> P x.
Proof.
  intros H Hn. apply nth_error_In in Hn.
  rewrite Forall_forall in H. auto.
Qed.

Lemma resolved_values_Forall2 (ss : list session) (vs : list json) :
  resolved_values ss = Some vs ->
  Forall2 (fun s m => settled (log s) = Some (Resolved m)) ss vs.
Proof.
  revert vs. induction ss as [|s ss IH]; intros vs; cbn.
  - intros [= <-]. constructor.
  - destruct (settled (log s)) as [[m|e]|] eqn:Es; try discriminate.
    destruct (resolved_values ss) as [ms|]; try discriminate.
    intros [= <-]. constructor; [exact Es|now apply IH].
Qed.

Section HandlerProperties.

Variable JSON_parse : jsstring -> option json.

Local Abbreviation step := (Gateway.step JSON_parse).
Local Abbreviation callMcpServer := (Gateway.callMcpServer JSON_parse).
Local Abbreviation deliver := (Gateway.deliver JSON_parse).
Local Abbreviation post_mcp := (Gateway.post_mcp JSON_parse).
Local Abbreviation post_run := (Gateway.post_run JSON_parse).

Lemma step_log (s : session) (ev : event) :
  exists es, log (step s ev) = log s ++ es.
Proof.
  apply (step_preserves JSON_parse (fun s' => exists es, log s' = log s ++ es)).
  - auto.
  - auto.
  - intros s0 raw s' [es H] Ha. destruct Ha; cbn; rewrite H.
    + now exists es.
    + exists (es ++ [Write (request s0)]). now rewrite app_assoc.
    + exists (es ++ [Kill; Resolve msg]). now rewrite app_assoc.
  - intros s0 m [es H]. cbn. rewrite H. eexists. now rewrite <- app_assoc.
  - intros s0 c [es H]. cbn. rewrite H. eexists. now rewrite <- app_assoc.
  - intros s0 [es H] _. cbn. rewrite H. eexists. now rewrite <- app_assoc.
  - exists []. now rewrite app_nil_r.
Qed.

(** A settled promise stays as it is. *)
Lemma settled_step (s : session) (ev : event) (x : settlement) :
  settled (log s) = Some x -> settled (log (step s ev)) = Some x.
Proof.
  intros H. destruct (step_log s ev) as [es ->].
  now rewrite settled_app, H.
Qed.

Lemma batch_invariant_dispatch (requests : list json) :
  batch_invariant requests (dispatch requests).
Proof.
  unfold batch_invariant, dispatch. cbn [sessions]. split; [|split].
  - rewrite map_map. cbn. apply map_id.
  - apply Forall_forall. intros s Hs. apply in_map_iff in Hs.
    destruct Hs as [r [<- _]]. split.
    + now exists [].
    + intros m [H|[H|[]]]; discriminate.
  - unfold all_invariant. cbn [all sessions].
    destruct (resolved_values (map start requests)) as [vs|] eqn:E.
    + now apply resolved_values_Forall2.
    + apply Forall_forall. intros s Hs. apply in_map_iff in Hs.
      destruct Hs as [r [<- _]]. cbn. discriminate.
Qed.

Lemma batch_invariant_deliver
  (requests : list json) (b : batch) (iev : nat * event) :
  batch_invariant requests b -> batch_invariant requests (deliver b iev).
Proof.
  intros [Hreq [Hss Hall]]. destruct iev as [i ev]. unfold Gateway.deliver.
  destruct (nth_error (sessions b) i) as [s|] eqn:Hn; [|now repeat split].
  set (s' := step s ev).
  unfold batch_invariant. cbn [sessions]. split; [|split].
  - rewrite (replace_nth_map request _ i s' s Hn); [exact Hreq|].
    apply request_step.
  - apply replace_nth_Forall; [exact Hss|].
    destruct (nth_error_Forall _ _ _ _ Hss Hn) as [Hh Ha]. split.
    + now apply handshake_first_step.
    + now apply answer_invariant_step.
  - unfold all_invariant in *. cbn [all sessions].
    destruct (all b) as [|vs|e].
    + pose proof (nth_error_Forall _ _ _ _ Hall Hn) as Hs. cbn in Hs.
      assert (Hkeep : forall vs0,
        match resolved_values (replace_nth i s' (sessions b)) with
        | Some vs => AllResolved vs
        | None => AllPending
        end = vs0 ->
        (forall e, settled (log s') <> Some (Rejected e)) ->
        match vs0 with
        | AllPending =>
            Forall (fun s => forall e, settled (log s) <> Some (Rejected e))
                   (replace_nth i s' (sessions b))
        | AllResolved vs =>
            Forall2 (fun s m => settled (log s) = Some (Resolved m))
                    (replace_nth i s' (sessions b)) vs
        | AllRejected e =>
            Exists (fun s => settled (log s) = Some (Rejected e))
                   (replace_nth i s' (sessions b))
        end).
      { intros vs0 E Hs'.
        destruct (resolved_values _) as [vs|] eqn:Er; subst vs0.
        - now apply resolved_values_Forall2.
        - now apply replace_nth_Forall. }
      destruct (settled (log s)) as [x|] eqn:Eo.
      * apply (Hkeep _ eq_refl). intros e.
        unfold s'. rewrite (settled_step s ev x Eo). apply Hs.
      * destruct (settled (log s')) as [[m|e]|] eqn:Eo'.
        -- apply (Hkeep _ eq_refl). discriminate.
        -- now apply (replace_nth_Exists_here _ _ _ _ s).
        -- apply (Hkeep _ eq_refl). discriminate.
    + eapply replace_nth_Forall2; [exact Hall|exact Hn|].
      intros v Hv. now apply settled_step.
    + eapply replace_nth_Exists; [exact Hall|exact Hn|].
      intros Hv. now apply settled_step.
Qed.

Lemma batch_invariant_post_mcp (body : json) (trace : list (nat * event)) :
  batch_invariant (mcp_requests body) (post_mcp body trace).
Proof.
  unfold Gateway.post_mcp.
  generalize (batch_invariant_dispatch (mcp_requests body)).
  generalize (dispatch (mcp_requests body)).
  induction trace as [|iev trace IH]; intros b Hb; [exact Hb|].
  cbn [fold_left]. apply IH. now apply batch_invariant_deliver.
Qed.

Lemma handshake_first_spawns (s : session) :
  handshake_first s -> spawns (log s) = 1%nat.
Proof.
  intros [rest [-> Hr]]. unfold spawns in *. cbn. now rewrite Hr.
Qed.

Lemma spawned_length (ss : list session) :
  Forall (fun s => spawns (log s) = 1%nat) ss ->
  spawned ss = List.length ss.
Proof.
  induction 1 as [|s ss Hs Hl IH]; [reflexivity|].
  change (spawned (s :: ss)) with (spawns (log s) + spawned ss)%nat.
  now rewrite Hs, IH.
Qed.

Lemma resolved_answers (ss : list session) (vs : list json) :
  Forall (fun s => handshake_first s /\ answer_invariant s) ss ->
  Forall2 (fun s m => settled (log s) = Some (Resolved m)) ss vs ->
  Forall2 answers (map request ss) vs.
Proof.
  intros Hss H. induction H as [|s m ss vs Hs Hl IH]; [constructor|].
  inversion Hss as [|? ? [_ Ha] Hss']; subst.
  cbn [map]. constructor; [|now apply IH].
  apply Ha. now apply settled_In.
Qed.

(** ** [POST /mcp] *)

(** The sessions of a batch, and what an answer that has been sent tells
    of them. *)
Lemma batch_sessions_and_answer
  (requests : list json) (trace : list (nat * event)) :
  sessions (post_mcp (JArr requests) []) = map start requests
  /\ map request (sessions (post_mcp (JArr requests) trace)) = requests
  /\ Forall (fun s => spawns (log s) = 1%nat)
            (sessions (post_mcp (JArr requests) trace))
  /\ spawned (sessions (post_mcp (JArr requests) trace))
     = List.length requests
  /\ forall status body,
       mcp_result (JArr requests) (post_mcp (JArr requests) trace)
       = Sent status body ->
       (status = 200
        /\ exists responses,
             body = Val (JArr responses)
             /\ List.length responses = List.length requests
             /\ Forall2 (fun s m => outcome s = Some (Resolved m))
                        (sessions (post_mcp (JArr requests) trace)) responses
             /\ Forall2 answers requests responses)
       \/ (status = 500
           /\ Exists (fun s => exists e, outcome s = Some (Rejected e))
                     (sessions (post_mcp (JArr requests) trace))).
Proof.
  destruct (batch_invariant_post_mcp (JArr requests) trace)
    as [Hreq [Hss Hall]].
  cbn [mcp_requests] in Hreq, Hss.
  set (b := post_mcp (JArr requests) trace) in *.
  assert (Hsp : Forall (fun s => spawns (log s) = 1%nat) (sessions b)).
  { eapply Forall_impl; [|exact Hss]. intros s [H _].
    now apply handshake_first_spawns. }
  split; [reflexivity|]. split; [exact Hreq|]. split; [exact Hsp|].
  split.
  - rewrite spawned_length by exact Hsp.
    rewrite <- Hreq at 1. now rewrite length_map.
  - intros status body. unfold mcp_result, all_invariant in *.
    destruct (all b) as [|vs|e]; [discriminate| |].
    + cbn [is_array]. intros [= <- <-]. left. split; [reflexivity|].
      exists vs. split; [reflexivity|].
      pose proof (resolved_answers _ _ Hss Hall) as Ha.
      rewrite Hreq in Ha. split; [|split; [exact Hall|exact Ha]].
      symmetry. eapply Forall2_length. exact Ha.
    + cbn [get]. intros [= <- <-]. right. split; [reflexivity|].
      eapply Exists_impl; [|exact Hall]. intros s Hs. now exists e.
Qed.

(** C7. When a session of a [POST /mcp] has failed, whatever the events
    of the other sessions, the handler has answered with status 500 and
    the envelope whose [error.code] is -32603 and whose [error.message] is
    the message of the failure that rejected [Promise.all], the failure of
    one of the sessions; no exception leaves the handler. *)
Theorem failed_session_answers_500
  (body : json) (trace : list (nat * event)) (s : session) (e : failure) :
  is_container body = true ->
  In s (sessions (post_mcp body trace)) ->
  outcome s = Some (Rejected e) ->
  exists id s' e',
    get body (js "id") = Some id
    /\ In s' (sessions (post_mcp body trace))
    /\ outcome s' = Some (Rejected e')
    /\ mcp_result body (post_mcp body trace)
       = Sent 500
           (Val (JObj [ (js "jsonrpc", JStr (js "2.0"));
                        (js "id", or_null id);
                        (js "error",
                         JObj [ (js "code", JNum (Finite (-32603) 0));
                                (js "message", JStr (message e')) ]) ])).
Proof.
  intros Hbody Hin Hout.
  destruct (batch_invariant_post_mcp body trace) as [_ [_ Hall]].
  set (b := post_mcp body trace) in *.
  assert (Hid : exists id, get body (js "id") = Some id).
  { destruct body; try discriminate; cbn; eauto. }
  destruct Hid as [id Hid].
  unfold all_invariant, mcp_result in *. destruct (all b) as [|vs|e'].
  - rewrite Forall_forall in Hall. now apply Hall in Hout.
  - exfalso. clear Hid. revert Hin.
    induction Hall as [|s0 m ss vs' Hs0 Hrest IH]; [contradiction|].
    intros [->|Hin]; [|now apply IH].
    unfold outcome in Hout. congruence.
  - apply Exists_exists in Hall. destruct Hall as [s' [Hin' Hs']].
    exists id, s', e'. rewrite Hid. repeat split; auto.
Qed.

(** ** [POST /run] *)

Lemma get_total (m : json) (k k' : jsstring) (v : jsval) :
  get m k = Some v -> exists v', get m k' = Some v'.
Proof. destruct m; cbn; try discriminate; eauto. Qed.

(** C8 (amended). For a body whose [code] is a non-empty string, the
    handler starts one session, for the request with method 'tools/call',
    [params.name] 'run_code' and [params.arguments] the object holding
    that code; when the session resolves, the handler answers with
    [response.result || response.error]. *)
Theorem run_dispatches_tools_call
  (uuid : jsstring) (body : json) (code : jsstring) (events : list event) :
  get body (js "code") = Some (Val (JStr code)) ->
  code <> [] ->
  exists s result,
    post_run uuid body events = ([s], result)
    /\ s = callMcpServer
             (JObj [ (js "jsonrpc", JStr (js "2.0"));
                     (js "id", JStr uuid);
                     (js "method", JStr (js "tools/call"));
                     (js "params",
                      JObj [ (js "name", JStr (js "run_code"));
                             (js "arguments",
                              JObj [ (js "code", JStr code) ]) ]) ])
             events
    /\ forall response,
         outcome s = Some (Resolved response) ->
         exists res err,
           get response (js "result") = Some res
           /\ get response (js "error") = Some err
           /\ result = Sent 200 (or_js res err).
Proof.
  intros Hcode Hne. unfold Gateway.post_run. rewrite Hcode.
  destruct code as [|c code]; [contradiction|]. cbn [truthy negb].
  eexists. eexists. split; [reflexivity|]. split; [reflexivity|].
  intros response Hr. fold (run_request uuid (JStr (c :: code))) in *.
  rewrite Hr.
  pose proof (answer_invariant_run JSON_parse _ _ _ (settled_In _ _ Hr))
    as [mid [rid [Hm _]]].
  destruct (get_total _ _ (js "result") _ Hm) as [res Hres].
  destruct (get_total _ _ (js "error") _ Hm) as [err Herr].
  exists res, err. now rewrite Hres, Herr.
Qed.

(** C9. For a body without a [code] property (the empty body included),
    the handler answers 400 with the message 'code is required' and
    starts no session: nothing is spawned. *)
Theorem run_requires_code
  (uuid : jsstring) (body : json) (events : list event) :
  get body (js "code") = Some Undefined ->
  snd (post_run uuid body events)
  = Sent 400 (Val (JObj [ (js "error", JStr (js "code is required")) ]))
  /\ fst (post_run uuid body events) = []
  /\ spawned (fst (post_run uuid body events)) = 0%nat.
Proof.
  intros H. unfold Gateway.post_run. rewrite H. cbn. auto.
Qed.

End HandlerProperties.

(* ================================================================== *)
(** * The session on sample traffic *)

Import JsonParse Samples.

Lemma Forall_of_forallb {A} (f : A -> bool) (l : list A) :
  forallb f l = true -> Forall (fun x => f x = true) l.
Proof. intros H. apply Forall_forall. now apply forallb_forall. Qed.

Lemma Forall_of_existsb {A} (f : A -> bool) (l : list A) :
  existsb f l = false -> Forall (fun x => f x = false) l.
Proof.
  induction l as [|x l IH]; cbn; [constructor|].
  intros H. apply orb_false_iff in H. destruct H. constructor; auto.
Qed.

Lemma no_nl_of_forallb (ls : list jsstring) :
  forallb (forallb (fun c => negb (c =? 10))) ls = true -> Forall no_nl ls.
Proof.
  intros H. apply Forall_forall. intros l Hl Hin.
  rewrite forallb_forall in H. specialize (H l Hl).
  rewrite forallb_forall in H. specialize (H 10 Hin). discriminate.
Qed.

(** The example of the specification: the response delivered in two
    ASCII pieces is resolved as the response delivered whole. *)
Example split_response_reassembled :
  whole_characters piece1
  /\ callMcpServer json_parse req_abc [StdoutData piece1; StdoutData piece2]
     = callMcpServer json_parse req_abc [StdoutData (piece1 ++ piece2)]
  /\ outcome (callMcpServer json_parse req_abc [StdoutData piece1]) = None
  /\ outcome (callMcpServer json_parse req_abc
                [StdoutData piece1; StdoutData piece2])
     = Some (Resolved (msg_abc (JObj []))).
Proof. repeat split; vm_compute; reflexivity. Qed.

(** C1 (the code departs from the claim). Each chunk is decoded on its
    own before it is appended to the line buffer, so a response cut
    inside a multi-byte character is not parsed as the response delivered
    whole: the two halves of the character become two U+FFFD. *)
Theorem split_inside_character_diverges :
  outcome (callMcpServer json_parse req_abc [StdoutData (accent1 ++ accent2)])
  = Some (Resolved (msg_abc (JStr [233])))
  /\ outcome (callMcpServer json_parse req_abc
                [StdoutData accent1; StdoutData accent2])
     = Some (Resolved (msg_abc (JStr [65533; 65533]))).
Proof. split; vm_compute; reflexivity. Qed.

(** The same cut inside the identifier loses the response: the session
    that resolves on the whole chunk stays pending on the two pieces and
    ends in the timeout. *)
Example split_inside_identifier_times_out :
  outcome (callMcpServer json_parse req_accent
             [StdoutData (accent_id1 ++ accent_id2); TimerFired])
  = Some (Resolved (JObj [ (js "jsonrpc", JStr (js "2.0"));
                           (js "id", JStr [233]);
                           (js "result", JObj []) ]))
  /\ outcome (callMcpServer json_parse req_accent
                [StdoutData accent_id1; StdoutData accent_id2; TimerFired])
     = Some (Rejected TimeoutError).
Proof. split; vm_compute; reflexivity. Qed.

(** ** The handshake identifier *)

(** C2 fails as stated: a caller may use the identifier 'init'. The
    handshake then carries the caller's identifier, and the message
    resolved to the caller carries the identifier 'init'. *)
Lemma reserved_id_collides :
  get req_init (js "id") = get initMsg (js "id")
  /\ outcome (callMcpServer json_parse req_init
                [StdoutData init_ack; StdoutData answer_init])
     = Some (Resolved msg_init)
  /\ get msg_init (js "id") = Some (Val (JStr (js "init"))).
Proof. repeat split; vm_compute; reflexivity. Qed.

Lemma resolved_answers_request_witness :
  exists mid rid,
    get (msg_abc (JObj [])) (js "id") = Some mid
    /\ get req_abc (js "id") = Some rid
    /\ strict_eq mid rid = true
    /\ (strict_eq rid (Val (JStr (js "init"))) = false ->
        strict_eq mid (Val (JStr (js "init"))) = false).
Proof.
  apply (resolved_answers_request json_parse req_abc
           [StdoutData init_ack; StdoutData answer_abc] (msg_abc (JObj []))).
  vm_compute. reflexivity.
Defined.

(** ** The timeout *)

(** C3 fails as stated: after an 'error' event no stdout message has
    arrived, yet the timer is cleared: nothing is killed and the promise
    is rejected with the error of the event, not with the timeout. *)
Lemma error_event_preempts_timeout :
  complete_lines (stdout_text [ProcError enoent]) = []
  /\ outcome (callMcpServer json_parse req_abc
                ([ProcError enoent] ++ [TimerFired]))
     = Some (Rejected (ProcessError enoent))
  /\ kills (log (callMcpServer json_parse req_abc
                   ([ProcError enoent] ++ [TimerFired]))) = 0%nat.
Proof. repeat split; vm_compute; reflexivity. Qed.

Lemma timeout_settles_witness :
  outcome (callMcpServer json_parse req_abc
             ([StdoutData init_ack; StdoutData log_line; ProcExit (Some 0%Z)]
              ++ [TimerFired]))
  = Some (Rejected TimeoutError)
  /\ kills (log (callMcpServer json_parse req_abc
                   ([StdoutData init_ack; StdoutData log_line;
                     ProcExit (Some 0%Z)] ++ [TimerFired]))) = 1%nat.
Proof.
  apply (timeout_settles json_parse req_abc
           [StdoutData init_ack; StdoutData log_line; ProcExit (Some 0%Z)]).
  - apply Forall_of_forallb. vm_compute. reflexivity.
  - apply Forall_of_existsb. vm_compute. reflexivity.
Defined.

(** ** Termination of the subprocess *)

(** C4 fails as stated. After an 'error' event the promise is settled and
    no kill was issued; after a non-zero exit the promise is settled
    without a kill and the timer, left pending, later kills the exited
    subprocess; a response that arrives after the timeout kills again. *)
Lemma termination_not_exactly_once :
  (outcome (callMcpServer json_parse req_abc [ProcError enoent])
   = Some (Rejected (ProcessError enoent))
   /\ kills (log (callMcpServer json_parse req_abc [ProcError enoent]))
      = 0%nat)
  /\ (first_settle
        (log (callMcpServer json_parse req_abc
                [ProcExit (Some 1%Z); TimerFired])) 0
      = Some (Rejected (ExitError 1 []), 0%nat)
      /\ kills (log (callMcpServer json_parse req_abc
                       [ProcExit (Some 1%Z); TimerFired])) = 1%nat)
  /\ (outcome (callMcpServer json_parse req_abc
                 [StdoutData init_ack; TimerFired; StdoutData answer_abc])
      = Some (Rejected TimeoutError)
      /\ kills (log (callMcpServer json_parse req_abc
                       [StdoutData init_ack; TimerFired;
                        StdoutData answer_abc])) = 2%nat).
Proof. repeat split; vm_compute; reflexivity. Qed.

Lemma kills_at_settlement_witness :
  1%nat = kills_before (Resolved (msg_abc (JObj []))).
Proof.
  apply (kills_at_settlement json_parse req_abc
           [StdoutData init_ack; StdoutData answer_abc]).
  vm_compute. reflexivity.
Defined.

(** ** Clean exit *)

(** C10 fails as stated: stdout data can still be delivered after the
    'exit' event. A response that arrives after a clean exit resolves the
    promise; it is not the timeout that settles it. *)
Lemma response_after_clean_exit :
  outcome (callMcpServer json_parse req_abc
             [StdoutData init_ack; ProcExit (Some 0%Z)]) = None
  /\ outcome (callMcpServer json_parse req_abc
                [StdoutData init_ack; ProcExit (Some 0%Z);
                 StdoutData answer_abc; TimerFired])
     = Some (Resolved (msg_abc (JObj [])))
  /\ outcome (callMcpServer json_parse req_abc
                [StdoutData init_ack; ProcExit None;
                 StdoutData answer_abc; TimerFired])
     = Some (Resolved (msg_abc (JObj []))).
Proof. repeat split; vm_compute; reflexivity. Qed.

Lemma clean_exit_leaves_pending_witness :
  callMcpServer json_parse req_abc
    ([StdoutData init_ack] ++ [ProcExit (Some 0%Z)])
  = callMcpServer json_parse req_abc [StdoutData init_ack]
  /\ outcome (callMcpServer json_parse req_abc
                ([StdoutData init_ack]
                 ++ ProcExit (Some 0%Z) :: [StdoutData log_line]
                 ++ [TimerFired]))
     = Some (Rejected TimeoutError).
Proof.
  destruct (clean_exit_leaves_pending json_parse req_abc
              [StdoutData init_ack] (Some 0%Z)) as [Hexit [Htimer _]].
  - right. reflexivity.
  - vm_compute. reflexivity.
  - split; [exact Hexit|]. apply Htimer.
    + apply Forall_of_forallb. vm_compute. reflexivity.
    + apply Forall_of_existsb. vm_compute. reflexivity.
Defined.

(** ** Noise on stdout *)


(** ** [POST /mcp] *)

(** C5 fails as stated: [Promise.all] rejects with the first failure. With
    two requests, when the first session fails the handler answers 500
    while the second session is still pending, its subprocess running. *)
Lemma batch_answers_before_all_settle :
  mcp_result (JArr [req_abc; req_init])
    (post_mcp json_parse (JArr [req_abc; req_init]) [(0%nat, ProcError enoent)])
  = Sent 500 (Val (error_envelope Undefined (ProcessError enoent)))
  /\ map outcome
       (sessions (post_mcp json_parse (JArr [req_abc; req_init])
                    [(0%nat, ProcError enoent)]))
     = [Some (Rejected (ProcessError enoent)); None]
  /\ map (fun s => kills (log s))
       (sessions (post_mcp json_parse (JArr [req_abc; req_init])
                    [(0%nat, ProcError enoent)]))
     = [0%nat; 0%nat].
Proof. repeat split; vm_compute; reflexivity. Qed.

Lemma failed_session_answers_500_witness :
  exists id s' e',
    get req_abc (js "id") = Some id
    /\ In s' (sessions (post_mcp json_parse req_abc
                          [(0%nat, ProcExit (Some 1%Z))]))
    /\ outcome s' = Some (Rejected e')
    /\ mcp_result req_abc
         (post_mcp json_parse req_abc [(0%nat, ProcExit (Some 1%Z))])
       = Sent 500
           (Val (JObj [ (js "jsonrpc", JStr (js "2.0"));
                        (js "id", or_null id);
                        (js "error",
                         JObj [ (js "code", JNum (Finite (-32603) 0));
                                (js "message", JStr (message e')) ]) ])).
Proof.
  apply (failed_session_answers_500 json_parse req_abc
           [(0%nat, ProcExit (Some 1%Z))]
           (callMcpServer json_parse req_abc [ProcExit (Some 1%Z)])
           (ExitError 1 [])).
  - reflexivity.
  - vm_compute. left. reflexivity.
  - vm_compute. reflexivity.
Defined.

(** The envelope of a failed single request, in full. *)
Example failed_request_envelope :
  mcp_result req_abc
    (post_mcp json_parse req_abc
       [(0%nat, StderrData (ascii_buffer "boom")); (0%nat, ProcExit (Some 1%Z))])
  = Sent 500
      (Val (JObj [ (js "jsonrpc", JStr (js "2.0"));
                   (js "id", JStr (js "abc"));
                   (js "error",
                    JObj [ (js "code", JNum (Finite (-32603) 0));
                           (js "message",
                            JStr (js "MCP server exited with code 1: boom"))
                         ]) ])).
Proof. vm_compute. reflexivity. Qed.

(** ** [POST /run] *)

(** C8 fails as stated: the empty string is a string, and the handler
    answers 400 for it without starting a session. *)
Lemma run_rejects_empty_code :
  post_run json_parse uuid (run_body []) [] = ([], Sent 400 (Val code_required)).
Proof. reflexivity. Qed.

Lemma run_dispatches_tools_call_witness :
  exists s result,
    post_run json_parse uuid (run_body (js "print(1)"))
      [StdoutData init_ack; StdoutData answer_uuid]
    = ([s], result)
    /\ s = callMcpServer json_parse
             (JObj [ (js "jsonrpc", JStr (js "2.0"));
                     (js "id", JStr uuid);
                     (js "method", JStr (js "tools/call"));
                     (js "params",
                      JObj [ (js "name", JStr (js "run_code"));
                             (js "arguments",
                              JObj [ (js "code", JStr (js "print(1)")) ]) ]) ])
             [StdoutData init_ack; StdoutData answer_uuid]
    /\ forall response,
         outcome s = Some (Resolved response) ->
         exists res err,
           get response (js "result") = Some res
           /\ get response (js "error") = Some err
           /\ result = Sent 200 (or_js res err).
Proof.
  apply (run_dispatches_tools_call json_parse uuid (run_body (js "print(1)"))
           (js "print(1)") [StdoutData init_ack; StdoutData answer_uuid]).
  - reflexivity.
  - discriminate.
Defined.

(** The request of the specification's example and the answer to it. *)
Example run_print_1 :
  post_run json_parse uuid (run_body (js "print(1)"))
    [StdoutData init_ack; StdoutData answer_uuid]
  = ([callMcpServer json_parse (run_request uuid (JStr (js "print(1)")))
        [StdoutData init_ack; StdoutData answer_uuid]],
     Sent 200 (Val (JObj [ (js "content", JArr []) ])))
  /\ log (callMcpServer json_parse (run_request uuid (JStr (js "print(1)")))
            [StdoutData init_ack; StdoutData answer_uuid])
     = [ Spawn; Write initMsg;
         Write (run_request uuid (JStr (js "print(1)")));
         Kill;
         Resolve (JObj [ (js "jsonrpc", JStr (js "2.0"));
                         (js "id", JStr uuid);
                         (js "result", JObj [ (js "content", JArr []) ]) ]) ].
Proof. split; vm_compute; reflexivity. Qed.

Lemma run_requires_code_witness :
  snd (post_run json_parse uuid (JObj []) [])
  = Sent 400 (Val (JObj [ (js "error", JStr (js "code is required")) ]))
  /\ fst (post_run json_parse uuid (JObj []) []) = []
  /\ spawned (fst (post_run json_parse uuid (JObj []) [])) = 0%nat.
Proof.
  apply (run_requires_code json_parse uuid (JObj []) []).
  reflexivity.
Defined.

(* ================================================================== *)
(** * Further properties of the session *)

(** ** More on lines *)

Lemma split_nl_no_nl (s : jsstring) : Forall no_nl (split_nl s).
Proof.
  induction s as [|c r IH]; cbn [split_nl].
  - constructor; [intros []|constructor].
  - destruct (N.eqb_spec c 10) as [->|Hc].
    + constructor; [intros []|exact IH].
    + destruct (split_nl r) as [|l ls].
      * constructor; [|constructor]. intros [H|[]]. now apply Hc.
      * inversion IH as [|? ? Hl Hls]; subst. constructor; [|exact Hls].
        intros [H|H]; [now apply Hc|now apply Hl].
Qed.

Lemma residue_no_nl (s : jsstring) : no_nl (residue s).
Proof.
  unfold residue. pose proof (split_nl_no_nl s) as H.
  destruct (split_nl_cons s) as [l [ls E]]. rewrite E in *. clear E.
  revert l H. induction ls as [|l' ls IH]; intros l H.
  - now inversion H.
  - inversion H; subst. cbn [last]. now apply IH.
Qed.

Lemma split_nl_of_no_nl (s : jsstring) : no_nl s -> split_nl s = [s].
Proof.
  unfold no_nl. induction s as [|c r IH]; intros H; [reflexivity|].
  cbn [split_nl]. destruct (N.eqb_spec c 10) as [->|_].
  - exfalso. apply H. now left.
  - rewrite IH; [reflexivity|]. intros Hin. apply H. now right.
Qed.

Lemma residue_of_no_nl (s : jsstring) : no_nl s -> residue s = s.
Proof. intros H. unfold residue. now rewrite split_nl_of_no_nl. Qed.

Lemma complete_lines_of_no_nl (s : jsstring) :
  no_nl s -> complete_lines s = [].
Proof. intros H. unfold complete_lines. now rewrite split_nl_of_no_nl. Qed.

Section SessionFacts.

Variable JSON_parse : jsstring -> option json.

Local Abbreviation on_line := (Gateway.on_line JSON_parse).
Local Abbreviation on_text := (Gateway.on_text JSON_parse).
Local Abbreviation step := (Gateway.step JSON_parse).
Local Abbreviation run := (Gateway.run JSON_parse).
Local Abbreviation callMcpServer := (Gateway.callMcpServer JSON_parse).
Local Abbreviation correlated := (Gateway.correlated JSON_parse).
Local Abbreviation acknowledges := (Observations.acknowledges JSON_parse).
Local Abbreviation parsed_from := (Observations.parsed_from JSON_parse).

(** ** The line buffer *)

Lemma stdout_step_other (s : session) (ev : event) :
  (forall chunk, ev <> StdoutData chunk) -> stdout (step s ev) = stdout s.
Proof.
  intros H. destruct ev as [chunk|chunk|m|[c|]|]; cbn; try reflexivity.
  - now destruct (H chunk).
  - now destruct (c =? 0)%Z.
  - now destruct (timer s).
Qed.

Lemma stdout_run (evs : list event) (s : session) :
  no_nl (stdout s) ->
  stdout (run s evs) = residue (stdout s ++ stdout_text evs).
Proof.
  revert s. induction evs as [|ev evs IH]; intros s Hs.
  - cbn. now rewrite app_nil_r, residue_of_no_nl.
  - cbn [Gateway.run fold_left].
    change (fold_left step evs (step s ev)) with (run (step s ev) evs).
    destruct ev as [chunk|chunk|m|c|];
      try (rewrite IH; rewrite stdout_step_other by discriminate;
           [reflexivity|exact Hs]).
    rewrite IH.
    + cbn [Gateway.step stdout_text]. rewrite on_text_unfold.
      cbn [stdout set_stdout]. now rewrite app_assoc, <- residue_app.
    + cbn [Gateway.step]. rewrite on_text_unfold. cbn [stdout set_stdout].
      apply residue_no_nl.
Qed.

(** X1. The line buffer of a session holds exactly what was received on
    stdout after the last line feed, whatever else happened: it never
    holds a complete line. *)
Theorem buffer_is_unfinished_line (req : json) (evs : list event) :
  stdout (callMcpServer req evs) = residue (stdout_text evs)
  /\ no_nl (stdout (callMcpServer req evs)).
Proof.
  assert (E : stdout (callMcpServer req evs) = residue (stdout_text evs)).
  { unfold Gateway.callMcpServer. rewrite stdout_run; [reflexivity|].
    intros []. }
  split; [exact E|]. rewrite E. apply residue_no_nl.
Qed.

Lemma set_stdout_same (s : session) : set_stdout s (stdout s) = s.
Proof. now destruct s. Qed.

Lemma run_stdout_chunks (chunks : list buffer) (s : session) :
  no_nl (stdout s) ->
  run s (map StdoutData chunks)
  = on_text s (List.concat (map toString chunks)).
Proof.
  revert s. induction chunks as [|c chunks IH]; intros s Hs.
  - cbn [map List.concat Gateway.run fold_left].
    rewrite on_text_unfold, app_nil_r.
    rewrite complete_lines_of_no_nl, residue_of_no_nl by exact Hs.
    cbn [fold_left]. now rewrite set_stdout_same.
  - cbn [map List.concat Gateway.run fold_left].
    change (fold_left step (map StdoutData chunks) (step s (StdoutData c)))
      with (run (step s (StdoutData c)) (map StdoutData chunks)).
    rewrite IH.
    + cbn [Gateway.step]. apply on_text_app.
    + cbn [Gateway.step]. rewrite on_text_unfold. cbn [stdout set_stdout].
      apply residue_no_nl.
Qed.

(** X2. Only the decoded text matters, not how it was cut into chunks:
    two runs of stdout chunks that decode to the same text lead a session
    to the same state, whatever was delivered before and whatever is
    delivered after. *)
Theorem chunking_is_irrelevant
  (req : json) (pre post : list event) (chunks chunks' : list buffer) :
  List.concat (map toString chunks) = List.concat (map toString chunks') ->
  callMcpServer req (pre ++ map StdoutData chunks ++ post)
  = callMcpServer req (pre ++ map StdoutData chunks' ++ post).
Proof.
  intros H. unfold Gateway.callMcpServer.
  rewrite !(run_app JSON_parse). f_equal.
  assert (Hb : no_nl (stdout (run (start req) pre))).
  { rewrite stdout_run; [apply residue_no_nl|intros []]. }
  now rewrite !run_stdout_chunks, H by exact Hb.
Qed.

(** ** The captured stderr *)

Lemma stderr_fold_on_line (ls : list jsstring) (s : session) :
  stderr (fold_left on_line ls s) = stderr s.
Proof.
  revert s. induction ls as [|l ls IH]; intros s; [reflexivity|].
  cbn [fold_left]. rewrite IH.
  destruct (on_line_action JSON_parse s l); reflexivity.
Qed.

Lemma stderr_run (evs : list event) (s : session) :
  stderr (run s evs) = stderr s ++ stderr_text evs.
Proof.
  revert s. induction evs as [|ev evs IH]; intros s.
  - cbn. now rewrite app_nil_r.
  - cbn [Gateway.run fold_left].
    change (fold_left step evs (step s ev)) with (run (step s ev) evs).
    rewrite IH. destruct ev as [chunk|chunk|m|[c|]|];
      cbn [Gateway.step stderr_text].
    + rewrite on_text_unfold. cbn [stderr set_stdout].
      now rewrite stderr_fold_on_line.
    + cbn [stderr set_stderr]. now rewrite app_assoc.
    + reflexivity.
    + now destruct (c =? 0)%Z.
    + reflexivity.
    + now destruct (timer s).
Qed.

(** X3. When the subprocess exits with a non-zero code while the promise
    is pending, the promise is rejected, without any kill, with the error
    whose message is 'MCP server exited with code <code>: ' followed by all
    the text received on stderr so far. *)
Theorem exit_failure_reports_stderr
  (req : json) (pre : list event) (c : Z) :
  outcome (callMcpServer req pre) = None ->
  c <> 0%Z ->
  outcome (callMcpServer req (pre ++ [ProcExit (Some c)]))
  = Some (Rejected (ExitError c (stderr_text pre)))
  /\ message (ExitError c (stderr_text pre))
     = js "MCP server exited with code " ++ decimal c ++ js ": "
       ++ stderr_text pre
  /\ kills (log (callMcpServer req (pre ++ [ProcExit (Some c)]))) = 0%nat.
Proof.
  intros Hp Hc.
  destruct (pending_armed JSON_parse req pre Hp) as [_ Hk].
  unfold Gateway.callMcpServer, outcome in *.
  rewrite (run_snoc JSON_parse). cbn [Gateway.step].
  destruct (Z.eqb_spec c 0) as [|_]; [contradiction|].
  cbn [log emit]. rewrite settled_app, Hp, kills_app, Hk, stderr_run.
  cbn. auto.
Qed.

(** ** What is written to the subprocess *)

Lemma writes_app (l es : list effect) : writes (l ++ es) = writes l ++ writes es.
Proof.
  induction l as [|e l IH]; [reflexivity|].
  destruct e; cbn; now rewrite ?IH.
Qed.

Lemma initialized_on_line (s : session) (raw : jsstring) :
  initialized (on_line s raw) = initialized s || acknowledges raw.
Proof.
  unfold Gateway.on_line, Observations.acknowledges.
  destruct (trim raw) as [|c line]; [now rewrite orb_false_r|].
  destruct (JSON_parse (c :: line)) as [msg|]; [|now rewrite orb_false_r].
  destruct (get msg (js "id")) as [mid|]; [|now rewrite orb_false_r].
  destruct (strict_eq mid (Val (JStr (js "init")))) eqn:Ei;
    destruct (initialized s) eqn:Es; cbn [andb negb orb];
    try reflexivity;
    destruct (get (request s) (js "id")) as [rid|]; try exact Es;
    destruct (strict_eq mid rid); exact Es.
Qed.

Lemma initialized_fold_on_line (ls : list jsstring) (s : session) :
  initialized (fold_left on_line ls s)
  = initialized s || existsb acknowledges ls.
Proof.
  revert s. induction ls as [|l ls IH]; intros s.
  - cbn. now rewrite orb_false_r.
  - cbn [fold_left existsb]. rewrite IH, initialized_on_line.
    now rewrite orb_assoc.
Qed.

Lemma initialized_run (evs : list event) (s : session) :
  no_nl (stdout s) ->
  initialized (run s evs)
  = initialized s
    || existsb acknowledges (complete_lines (stdout s ++ stdout_text evs)).
Proof.
  revert s. induction evs as [|ev evs IH]; intros s Hs.
  - cbn [Gateway.run fold_left stdout_text]. rewrite app_nil_r.
    rewrite complete_lines_of_no_nl by exact Hs. cbn. now rewrite orb_false_r.
  - cbn [Gateway.run fold_left].
    change (fold_left step evs (step s ev)) with (run (step s ev) evs).
    destruct ev as [chunk|chunk|m|[c|]|]; cbn [stdout_text];
      try (rewrite IH; cbn [Gateway.step stdout initialized set_stderr emit
                              clear_timeout]; [reflexivity|exact Hs]).
    + rewrite IH.
      * cbn [Gateway.step]. rewrite on_text_unfold.
        cbn [stdout initialized set_stdout].
        rewrite initialized_fold_on_line.
        rewrite (app_assoc (stdout s) (toString chunk) (stdout_text evs)).
        rewrite (complete_lines_app (stdout s ++ toString chunk)).
        now rewrite existsb_app, orb_assoc.
      * cbn [Gateway.step]. rewrite on_text_unfold. cbn [stdout set_stdout].
        apply residue_no_nl.
    + cbn [Gateway.step]. destruct (c =? 0)%Z; rewrite IH; auto.
    + cbn [Gateway.step]. destruct (timer s); rewrite IH; auto.
Qed.

Lemma stdin_invariant_step (s : session) (ev : event) :
  stdin_invariant s -> stdin_invariant (step s ev).
Proof.
  apply step_preserves; clear s ev; unfold stdin_invariant;
    cbn [log request initialized requestSent emit clear_timeout
         set_stdout set_stderr]; auto.
  - intros s raw s' [Hw Hr] Ha.
    destruct Ha as [|Hi|msg mid rid _ _ _ _]; cbn; auto.
    + rewrite Hi in Hw. rewrite writes_app, Hw. auto.
    + rewrite writes_app, app_nil_r. auto.
  - intros s m [Hw Hr]. rewrite writes_app, app_nil_r. auto.
  - intros s c [Hw Hr]. rewrite writes_app, app_nil_r. auto.
  - intros s [Hw Hr] _. rewrite writes_app, app_nil_r. auto.
Qed.

(** X4. All that a session ever writes to the stdin of its subprocess is
    the handshake, followed by the caller's request, unmodified and only
    once, exactly when a complete stdout line has acknowledged the
    handshake (a line that parses to a message whose id is 'init'). *)
Theorem stdin_is_handshake_then_request (req : json) (evs : list event) :
  writes (log (callMcpServer req evs))
  = (if existsb acknowledges (complete_lines (stdout_text evs))
     then [initMsg; req] else [initMsg])
  /\ requestSent (callMcpServer req evs)
     = existsb acknowledges (complete_lines (stdout_text evs)).
Proof.
  assert (Hinv : stdin_invariant (callMcpServer req evs)).
  { unfold Gateway.callMcpServer.
    apply run_preserves; [apply stdin_invariant_step|]. now split. }
  destruct Hinv as [Hw Hr].
  assert (Hi : initialized (callMcpServer req evs)
               = existsb acknowledges (complete_lines (stdout_text evs))).
  { unfold Gateway.callMcpServer. rewrite initialized_run; [reflexivity|].
    intros []. }
  rewrite Hw, Hr, Hi. unfold Gateway.callMcpServer.
  now rewrite (request_run JSON_parse).
Qed.

(** ** Where a resolved message comes from *)

Lemma request_on_line (s : session) (raw : jsstring) :
  request (on_line s raw) = request s.
Proof. destruct (on_line_action JSON_parse s raw); reflexivity. Qed.

Lemma request_fold_on_line (ls : list jsstring) (s : session) :
  request (fold_left on_line ls s) = request s.
Proof.
  revert s. induction ls as [|l ls IH]; intros s; [reflexivity|].
  cbn [fold_left]. now rewrite IH, request_on_line.
Qed.

Lemma resolve_on_line (s : session) (raw : jsstring) (m : json) :
  In (Resolve m) (log (on_line s raw)) ->
  In (Resolve m) (log s)
  \/ (parsed_from raw m /\ correlated (request s) raw = true).
Proof.
  unfold Gateway.on_line, Gateway.correlated, Observations.parsed_from.
  destruct (trim raw) as [|c line] eqn:Ht; [auto|].
  destruct (JSON_parse (c :: line)) as [msg|] eqn:Hp; [|auto].
  destruct (get msg (js "id")) as [mid|] eqn:Hm; [|auto].
  destruct (strict_eq mid (Val (JStr (js "init"))) && negb (initialized s)).
  - cbn. intros H. apply in_app_or in H.
    destruct H as [H|[H|[]]]; [auto|discriminate].
  - destruct (get (request s) (js "id")) as [rid|] eqn:Hr; [|auto].
    destruct (strict_eq mid rid) eqn:He; [|auto].
    cbn. intros H. apply in_app_or in H.
    destruct H as [H|[H|[H|[]]]]; [auto|discriminate|].
    injection H as <-. right. repeat split; auto. discriminate.
Qed.

Lemma resolve_fold_on_line (ls : list jsstring) (s : session) (m : json) :
  In (Resolve m) (log (fold_left on_line ls s)) ->
  In (Resolve m) (log s)
  \/ exists raw, In raw ls /\ parsed_from raw m
                 /\ correlated (request s) raw = true.
Proof.
  revert s. induction ls as [|l ls IH]; intros s H; [auto|].
  cbn [fold_left] in H. apply IH in H. rewrite request_on_line in H.
  destruct H as [H|[raw [Hin H]]].
  - apply resolve_on_line in H. destruct H as [H|H]; [auto|].
    right. exists l. split; [now left|exact H].
  - right. exists raw. split; [now right|exact H].
Qed.

Lemma resolve_run (evs : list event) (s : session) (m : json) :
  In (Resolve m) (log (run s evs)) ->
  In (Resolve m) (log s)
  \/ exists raw,
       In raw (complete_lines (stdout s ++ stdout_text evs))
       /\ parsed_from raw m /\ correlated (request s) raw = true.
Proof.
  revert s. induction evs as [|ev evs IH]; intros s H; [auto|].
  cbn [Gateway.run fold_left] in H.
  change (fold_left step evs (step s ev)) with (run (step s ev) evs) in H.
  apply IH in H. rewrite (request_step JSON_parse) in H.
  destruct ev as [chunk|chunk|msg|[c|]|]; cbn [stdout_text];
    cbn [Gateway.step] in H.
  - rewrite on_text_unfold in H. cbn [log stdout set_stdout] in H.
    rewrite (app_assoc (stdout s) (toString chunk) (stdout_text evs)).
    rewrite (complete_lines_app (stdout s ++ toString chunk)).
    destruct H as [H|[raw [Hin H]]].
    + apply resolve_fold_on_line in H.
      destruct H as [H|[raw [Hin H]]]; [auto|].
      right. exists raw. split; [apply in_or_app; now left|exact H].
    + right. exists raw. split; [apply in_or_app; now right|exact H].
  - exact H.
  - cbn [log stdout emit clear_timeout] in H.
    destruct H as [H|H]; [|auto].
    apply in_app_or in H. destruct H as [H|[H|[]]]; [auto|discriminate].
  - destruct (c =? 0)%Z; [exact H|].
    cbn [log stdout emit] in H. destruct H as [H|H]; [|auto].
    apply in_app_or in H. destruct H as [H|[H|[]]]; [auto|discriminate].
  - exact H.
  - destruct (timer s); [|exact H].
    cbn [log stdout emit clear_timeout] in H.
    destruct H as [H|H]; [|auto].
    apply in_app_or in H.
    destruct H as [H|[H|[H|[]]]]; [auto|discriminate|discriminate].
Qed.

(** X5. A message resolved to the caller is never made up: it is what
    [JSON.parse] returned for a complete, non-blank line received on
    stdout, and that line answers the request. *)
Theorem resolved_message_was_received
  (req : json) (evs : list event) (m : json) :
  outcome (callMcpServer req evs) = Some (Resolved m) ->
  exists raw,
    In raw (complete_lines (stdout_text evs))
    /\ parsed_from raw m /\ correlated req raw = true.
Proof.
  intros H. apply settled_In in H.
  unfold Gateway.callMcpServer in H. apply resolve_run in H.
  destruct H as [[H|[H|[]]]|H]; try discriminate. exact H.
Qed.

(** ** The timer after a response *)

Lemma settled_run (evs : list event) (s : session) (x : settlement) :
  settled (log s) = Some x -> settled (log (run s evs)) = Some x.
Proof.
  revert s. induction evs as [|ev evs IH]; intros s H; [exact H|].
  cbn [Gateway.run fold_left]. apply IH. now apply settled_step.
Qed.

Lemma resolved_disarms_step (s : session) (ev : event) :
  ((exists m, In (Resolve m) (log s)) -> timer s = false) ->
  ((exists m, In (Resolve m) (log (step s ev))) -> timer (step s ev) = false).
Proof.
  apply (step_preserves JSON_parse
           (fun s => (exists m, In (Resolve m) (log s)) -> timer s = false));
    clear s ev;
    cbn [log timer emit clear_timeout set_stdout set_stderr]; auto.
  - intros s raw s' H Ha. destruct Ha as [|Hi|msg mid rid _ _ _ _]; auto.
    cbn. intros [m Hm]. apply H. exists m.
    apply in_app_or in Hm. destruct Hm as [Hm|[Hm|[]]]; [auto|discriminate].
  - intros s c H [m Hm]. apply H. exists m.
    apply in_app_or in Hm. destruct Hm as [Hm|[Hm|[]]]; [auto|discriminate].
Qed.

(** X6. Once a response has been resolved the timeout is cleared for
    good: whatever arrives afterwards, the timer does not fire, so it
    neither kills nor rejects. *)
Theorem resolved_clears_timeout
  (req : json) (evs post : list event) (m : json) :
  outcome (callMcpServer req evs) = Some (Resolved m) ->
  callMcpServer req (evs ++ post ++ [TimerFired])
  = callMcpServer req (evs ++ post).
Proof.
  intros H. rewrite app_assoc. unfold Gateway.callMcpServer in *.
  rewrite (run_snoc JSON_parse). cbn [Gateway.step].
  assert (Ht : timer (run (start req) (evs ++ post)) = false).
  { apply (run_preserves JSON_parse
             (fun s => (exists m, In (Resolve m) (log s)) -> timer s = false)).
    - intros s ev. apply resolved_disarms_step.
    - intros [m0 [Hm|[Hm|[]]]]; discriminate.
    - exists m. apply settled_In. rewrite (run_app JSON_parse).
      apply settled_run. exact H. }
  now rewrite Ht.
Qed.

(** ** How often the subprocess is killed *)

Lemma kills_on_line (s : session) (raw : jsstring) :
  (kills (log (on_line s raw)) + armed (on_line s raw)
   <= kills (log s) + armed s
      + List.length (filter (correlated (request s)) [raw]))%nat.
Proof.
  destruct (on_line_action JSON_parse s raw) as [|Hi|msg mid rid _ _ _ Hc];
    unfold armed; cbn [log timer mark_initialized emit clear_timeout].
  - lia.
  - rewrite kills_app. cbn. lia.
  - rewrite kills_app. cbn [filter]. rewrite Hc. cbn.
    destruct (timer s); lia.
Qed.

Lemma kills_fold_on_line (ls : list jsstring) (s : session) :
  (kills (log (fold_left on_line ls s)) + armed (fold_left on_line ls s)
   <= kills (log s) + armed s
      + List.length (filter (correlated (request s)) ls))%nat.
Proof.
  revert s. induction ls as [|l ls IH]; intros s; [cbn; lia|].
  cbn [fold_left]. specialize (IH (on_line s l)).
  rewrite request_on_line in IH.
  pose proof (kills_on_line s l) as H.
  change (l :: ls) with ([l] ++ ls). rewrite filter_app, length_app. lia.
Qed.

Lemma kills_run (evs : list event) (s : session) :
  (kills (log (run s evs)) + armed (run s evs)
   <= kills (log s) + armed s
      + List.length (filter (correlated (request s))
                       (complete_lines (stdout s ++ stdout_text evs))))%nat.
Proof.
  revert s. induction evs as [|ev evs IH]; intros s; [cbn; lia|].
  cbn [Gateway.run fold_left].
  change (fold_left step evs (step s ev)) with (run (step s ev) evs).
  specialize (IH (step s ev)). rewrite (request_step JSON_parse) in IH.
  destruct ev as [chunk|chunk|msg|[c|]|]; cbn [stdout_text];
    cbn [Gateway.step] in *.
  - rewrite on_text_unfold in *. cbn [log stdout set_stdout] in IH.
    rewrite (app_assoc (stdout s) (toString chunk) (stdout_text evs)).
    rewrite (complete_lines_app (stdout s ++ toString chunk)).
    rewrite filter_app, length_app.
    pose proof (kills_fold_on_line
                  (complete_lines (stdout s ++ toString chunk)) s) as H.
    unfold armed in *. cbn [timer set_stdout] in IH. lia.
  - exact IH.
  - unfold armed in *. cbn [log stdout timer emit clear_timeout] in IH.
    rewrite kills_app in IH. cbn in IH. destruct (timer s); lia.
  - destruct (c =? 0)%Z; [exact IH|].
    unfold armed in *. cbn [log stdout timer emit] in IH.
    rewrite kills_app in IH. cbn in IH. lia.
  - exact IH.
  - destruct (timer s) eqn:Ht; [|exact IH].
    unfold armed in *. rewrite Ht.
    cbn [log stdout timer emit clear_timeout] in IH.
    rewrite kills_app in IH. cbn in IH. lia.
Qed.

(** X7. [proc.kill()] is called at most once more than the number of
    complete stdout lines that answer the request, and at most that number
    of times while the timeout is still pending. *)
Theorem kills_are_bounded (req : json) (evs : list event) :
  (kills (log (callMcpServer req evs)) + armed (callMcpServer req evs)
   <= 1 + List.length (filter (correlated req)
                         (complete_lines (stdout_text evs))))%nat.
Proof.
  unfold Gateway.callMcpServer.
  pose proof (kills_run evs (start req)) as H.
  cbn [start request stdout log app] in H.
  change (kills [Spawn; Write initMsg]) with 0%nat in H.
  change (armed (start req)) with 1%nat in H.
  lia.
Qed.

End SessionFacts.

(* ================================================================== *)
(** * Further properties of the handlers *)

Lemma nth_error_replace_nth {A} (l : list A) (i j : nat) (x : A) :
  nth_error (replace_nth j x l) i
  = if Nat.eqb i j
    then match nth_error l j with Some _ => Some x | None => None end
    else nth_error l i.
Proof.
  revert i j. induction l as [|y l IH]; intros i j.
  - cbn. destruct (Nat.eqb i j); destruct i, j; reflexivity.
  - destruct j as [|j], i as [|i]; cbn; try reflexivity. apply IH.
Qed.

Lemma resolved_values_Some (ss : list session) :
  Forall is_resolved ss -> exists vs, resolved_values ss = Some vs.
Proof.
  induction 1 as [|s ss [m Hm] Hss [vs IH]]; [now exists []|].
  exists (m :: vs). cbn. now rewrite Hm, IH.
Qed.

Lemma Forall2_resolved_unique (ss : list session) (vs ws : list json) :
  Forall2 (fun s m => settled (log s) = Some (Resolved m)) ss vs ->
  Forall2 (fun s m => settled (log s) = Some (Resolved m)) ss ws ->
  vs = ws.
Proof.
  intros H. revert ws. induction H as [|s m ss vs Hs Hl IH]; intros ws Hw;
    inversion Hw; subst; [reflexivity|].
  f_equal; [congruence|now apply IH].
Qed.

Lemma Forall2_resolved_Forall (ss : list session) (vs : list json) :
  Forall2 (fun s m => settled (log s) = Some (Resolved m)) ss vs ->
  Forall is_resolved ss.
Proof.
  induction 1 as [|s m ss vs Hs Hl IH]; constructor; auto. now exists m.
Qed.

Lemma resolved_not_rejected (ss : list session) :
  Forall is_resolved ss -> Exists is_rejected ss -> False.
Proof.
  intros Hr He. apply Exists_exists in He. destruct He as [s [Hin [e He]]].
  rewrite Forall_forall in Hr. destruct (Hr s Hin) as [m Hm]. congruence.
Qed.

Section HandlerFacts.

Variable JSON_parse : jsstring -> option json.

Local Abbreviation step := (Gateway.step JSON_parse).
Local Abbreviation run := (Gateway.run JSON_parse).
Local Abbreviation callMcpServer := (Gateway.callMcpServer JSON_parse).
Local Abbreviation correlated := (Gateway.correlated JSON_parse).
Local Abbreviation deliver := (Gateway.deliver JSON_parse).
Local Abbreviation post_mcp := (Gateway.post_mcp JSON_parse).
Local Abbreviation post_run := (Gateway.post_run JSON_parse).

(** ** Sessions of a batch do not interfere *)

Lemma sessions_deliver (b : batch) (j : nat) (ev : event) (i : nat) :
  nth_error (sessions (deliver b (j, ev))) i
  = if Nat.eqb i j
    then option_map (fun s => step s ev) (nth_error (sessions b) i)
    else nth_error (sessions b) i.
Proof.
  unfold Gateway.deliver.
  destruct (nth_error (sessions b) j) as [s|] eqn:Hj.
  - cbn [sessions]. rewrite nth_error_replace_nth, Hj.
    destruct (Nat.eqb_spec i j) as [->|_]; [now rewrite Hj|reflexivity].
  - destruct (Nat.eqb_spec i j) as [->|_]; [now rewrite Hj|reflexivity].
Qed.

Lemma sessions_fold_deliver (trace : list (nat * event)) (b : batch) (i : nat) :
  nth_error (sessions (fold_left deliver trace b)) i
  = option_map (fun s => run s (events_for i trace)) (nth_error (sessions b) i).
Proof.
  revert b. induction trace as [|[j ev] trace IH]; intros b.
  - cbn. now destruct (nth_error (sessions b) i).
  - cbn [fold_left events_for]. rewrite IH, sessions_deliver.
    destruct (Nat.eqb i j); [|reflexivity].
    now destruct (nth_error (sessions b) i).
Qed.

(** X8. The sessions of one [POST /mcp] do not interfere: the state of
    the session of the request of index [i] is that of a lone
    [callMcpServer] on that request that receives the events of its own
    subprocess, in their order, however they interleave with the events
    of the other sessions. *)
Theorem sessions_are_independent
  (body : json) (trace : list (nat * event)) (i : nat) (req : json) :
  nth_error (mcp_requests body) i = Some req ->
  nth_error (sessions (post_mcp body trace)) i
  = Some (callMcpServer req (events_for i trace)).
Proof.
  intros H. unfold Gateway.post_mcp. rewrite sessions_fold_deliver.
  unfold dispatch. cbn [sessions]. rewrite nth_error_map, H. reflexivity.
Qed.

(** ** When the handler of [POST /mcp] answers *)

Lemma pending_invariant_dispatch (requests : list json) :
  pending_invariant (dispatch requests).
Proof.
  unfold pending_invariant, dispatch. cbn [all sessions].
  now destruct (resolved_values (map start requests)).
Qed.

Lemma pending_invariant_deliver (b : batch) (iev : nat * event) :
  pending_invariant b -> pending_invariant (deliver b iev).
Proof.
  unfold pending_invariant. destruct iev as [i ev]. unfold Gateway.deliver.
  destruct (nth_error (sessions b) i) as [s|]; [|auto].
  cbn [all sessions]. intros _.
  destruct (all b); try discriminate.
  destruct (settled (log s)) as [x|];
    [|destruct (settled (log (step s ev))) as [[m|e]|]; try discriminate];
    destruct (resolved_values _); try discriminate; auto.
Qed.

Lemma pending_invariant_post_mcp (body : json) (trace : list (nat * event)) :
  pending_invariant (post_mcp body trace).
Proof.
  unfold Gateway.post_mcp.
  generalize (pending_invariant_dispatch (mcp_requests body)).
  generalize (dispatch (mcp_requests body)).
  induction trace as [|iev trace IH]; intros b Hb; [exact Hb|].
  cbn [fold_left]. apply IH. now apply pending_invariant_deliver.
Qed.

(** The state of [Promise.all] read off the sessions. *)
Lemma all_characterised (body : json) (trace : list (nat * event)) :
  match all (post_mcp body trace) with
  | AllPending =>
      ~ Forall is_resolved (sessions (post_mcp body trace))
      /\ ~ Exists is_rejected (sessions (post_mcp body trace))
  | AllResolved vs =>
      Forall2 (fun s m => outcome s = Some (Resolved m))
              (sessions (post_mcp body trace)) vs
  | AllRejected e =>
      Exists (fun s => outcome s = Some (Rejected e))
             (sessions (post_mcp body trace))
  end.
Proof.
  destruct (batch_invariant_post_mcp JSON_parse body trace) as [_ [_ Ha]].
  pose proof (pending_invariant_post_mcp body trace) as Hp.
  unfold all_invariant, pending_invariant in *.
  destruct (all (post_mcp body trace)) as [|vs|e]; auto.
  split.
  - intros Hr. apply resolved_values_Some in Hr. destruct Hr as [vs Hr].
    rewrite Hp in Hr by reflexivity. discriminate.
  - intros He. apply Exists_exists in He. destruct He as [s [Hin [e He]]].
    rewrite Forall_forall in Ha. now apply (Ha s Hin e).
Qed.

(** Once [Promise.all] has settled, no event changes it. *)
Lemma all_settled_deliver (b : batch) (iev : nat * event) :
  all b <> AllPending -> all (deliver b iev) = all b.
Proof.
  intros H. destruct iev as [i ev]. unfold Gateway.deliver.
  destruct (nth_error (sessions b) i); [|reflexivity].
  cbn [all]. destruct (all b); [contradiction|reflexivity|reflexivity].
Qed.

Lemma all_settled_fold (more : list (nat * event)) (b : batch) :
  all b <> AllPending -> all (fold_left deliver more b) = all b.
Proof.
  revert b. induction more as [|iev more IH]; intros b H; [reflexivity|].
  cbn [fold_left]. rewrite IH; rewrite all_settled_deliver; auto.
Qed.

Lemma mcp_result_stable
  (body : json) (trace more : list (nat * event)) (status : N) (v : jsval) :
  mcp_result body (post_mcp body trace) = Sent status v ->
  mcp_result body (post_mcp body (trace ++ more)) = Sent status v.
Proof.
  intros H. unfold Gateway.post_mcp in *. rewrite fold_left_app.
  unfold mcp_result in *. rewrite all_settled_fold; [exact H|].
  intros E. rewrite E in H. discriminate.
Qed.

(** C5 (amended). For a body that is an array of N requests, N sessions are
    started at once, in the order of the requests, each with its own
    single spawn. Once every session has resolved, the handler has
    answered 200 with the array of N responses in which the response of
    index i is the message resolved by session i and answers request i.
    As soon as a session has failed, whatever the state of the other
    sessions, the handler has answered 500 with the error envelope of a
    failure. It answers in no other case, and an answer, once sent, is not
    changed by what the sessions do afterwards. *)
Theorem batch_fan_out (requests : list json) (trace : list (nat * event)) :
  sessions (post_mcp (JArr requests) []) = map start requests
  /\ map request (sessions (post_mcp (JArr requests) trace)) = requests
  /\ Forall (fun s => spawns (log s) = 1%nat)
            (sessions (post_mcp (JArr requests) trace))
  /\ spawned (sessions (post_mcp (JArr requests) trace))
     = List.length requests
  /\ (Forall is_resolved (sessions (post_mcp (JArr requests) trace)) ->
      exists responses,
        mcp_result (JArr requests) (post_mcp (JArr requests) trace)
        = Sent 200 (Val (JArr responses))
        /\ List.length responses = List.length requests
        /\ Forall2 (fun s m => outcome s = Some (Resolved m))
                   (sessions (post_mcp (JArr requests) trace)) responses
        /\ Forall2 answers requests responses)
  /\ (Exists is_rejected (sessions (post_mcp (JArr requests) trace)) ->
      exists e,
        Exists (fun s => outcome s = Some (Rejected e))
               (sessions (post_mcp (JArr requests) trace))
        /\ mcp_result (JArr requests) (post_mcp (JArr requests) trace)
           = Sent 500
               (Val (JObj [ (js "jsonrpc", JStr (js "2.0"));
                            (js "id", JNull);
                            (js "error",
                             JObj [ (js "code", JNum (Finite (-32603) 0));
                                    (js "message", JStr (message e)) ]) ])))
  /\ (forall status v,
        mcp_result (JArr requests) (post_mcp (JArr requests) trace)
        = Sent status v ->
        (status = 200
         /\ Forall is_resolved (sessions (post_mcp (JArr requests) trace)))
        \/ (status = 500
            /\ Exists is_rejected
                 (sessions (post_mcp (JArr requests) trace))))
  /\ (forall more status v,
        mcp_result (JArr requests) (post_mcp (JArr requests) trace)
        = Sent status v ->
        mcp_result (JArr requests) (post_mcp (JArr requests) (trace ++ more))
        = Sent status v).
Proof.
  destruct (batch_sessions_and_answer JSON_parse requests trace)
    as [H0 [Hreq [Hsp [Hn _]]]].
  destruct (batch_invariant_post_mcp JSON_parse (JArr requests) trace)
    as [_ [Hss _]].
  pose proof (all_characterised (JArr requests) trace) as H.
  repeat (split; [assumption|]).
  assert (Hrej : forall e,
    Exists (fun s => outcome s = Some (Rejected e))
           (sessions (post_mcp (JArr requests) trace)) ->
    Exists is_rejected (sessions (post_mcp (JArr requests) trace))).
  { intros e He. eapply Exists_impl; [|exact He]. intros s Hs. now exists e. }
  unfold mcp_result.
  destruct (all (post_mcp (JArr requests) trace)) as [|vs|e] eqn:Ea.
  - destruct H as [Hr He]. repeat split; try contradiction;
      intros; discriminate.
  - pose proof (Forall2_resolved_Forall _ _ H) as Hr.
    split; [|split; [|split]].
    + intros _. exists vs. split; [reflexivity|].
      pose proof (resolved_answers _ _ Hss H) as Ha. rewrite Hreq in Ha.
      split; [|split; [exact H|exact Ha]].
      symmetry. eapply Forall2_length. exact Ha.
    + intros He. exfalso. eapply resolved_not_rejected; eauto.
    + cbn [is_array]. intros status v [= <- <-]. left. auto.
    + intros more status v Hv.
      apply (mcp_result_stable (JArr requests) trace more).
      unfold mcp_result. now rewrite Ea.
  - pose proof (Hrej e H) as He. split; [|split; [|split]].
    + intros Hr. exfalso. eapply resolved_not_rejected; eauto.
    + intros _. exists e. split; [exact H|reflexivity].
    + cbn [get]. intros status v [= <- <-]. right. auto.
    + intros more status v Hv.
      apply (mcp_result_stable (JArr requests) trace more).
      unfold mcp_result. now rewrite Ea.
Qed.

(** X9. The handler of [POST /mcp] answers 200 exactly when every
    session has resolved, and, for a body that is an object or an array,
    500 exactly when some session has failed; until then it has not
    answered. *)
Theorem mcp_answer_characterised (body : json) (trace : list (nat * event)) :
  ((exists v, mcp_result body (post_mcp body trace) = Sent 200 v)
   <-> Forall is_resolved (sessions (post_mcp body trace)))
  /\ (is_container body = true ->
      ((exists v, mcp_result body (post_mcp body trace) = Sent 500 v)
       <-> Exists is_rejected (sessions (post_mcp body trace))))
  /\ (mcp_result body (post_mcp body trace) = NoResponse
      <-> ~ Forall is_resolved (sessions (post_mcp body trace))
          /\ ~ Exists is_rejected (sessions (post_mcp body trace))).
Proof.
  pose proof (all_characterised body trace) as H.
  unfold mcp_result. set (b := post_mcp body trace) in *.
  assert (Hrej : forall e,
    Exists (fun s => outcome s = Some (Rejected e)) (sessions b) ->
    Exists is_rejected (sessions b)).
  { intros e He. eapply Exists_impl; [|exact He]. intros s Hs. now exists e. }
  destruct (all b) as [|vs|e].
  - destruct H as [Hr He]. repeat split; try tauto.
    + intros [v Hv]. discriminate.
    + intros [v Hv]. discriminate.
  - pose proof (Forall2_resolved_Forall _ _ H) as Hr. repeat split.
    + auto.
    + intros _. destruct (is_array body); eauto.
    + intros [v Hv]. destruct (is_array body); discriminate.
    + intros He. exfalso. eapply resolved_not_rejected; eauto.
    + destruct (is_array body); discriminate.
    + destruct (is_array body); discriminate.
    + intros [Hn _]. contradiction.
  - pose proof (Hrej e H) as He. repeat split.
    + intros [v Hv]. destruct (get body (js "id")); discriminate.
    + intros Hr. exfalso. eapply resolved_not_rejected; eauto.
    + auto.
    + intros _. destruct body; try discriminate; cbn; eauto.
    + destruct (get body (js "id")); discriminate.
    + destruct (get body (js "id")); discriminate.
    + intros [_ Hn]. contradiction.
Qed.

(** X10. A body that is a single request object is served by exactly one
    session, a lone [callMcpServer] on the body, and the answer mirrors
    that session: nothing while it is pending, the resolved message itself
    (not an array) with status 200, or status 500 with the envelope that
    carries the message of the session's failure and the id [body.id ||
    null]. *)
Theorem single_request_answer
  (fields : list (jsstring * json)) (trace : list (nat * event)) :
  sessions (post_mcp (JObj fields) trace)
  = [callMcpServer (JObj fields) (events_for 0 trace)]
  /\ mcp_result (JObj fields) (post_mcp (JObj fields) trace)
     = match outcome (callMcpServer (JObj fields) (events_for 0 trace)) with
       | None => NoResponse
       | Some (Resolved m) => Sent 200 (Val m)
       | Some (Rejected e) =>
           Sent 500 (Val (error_envelope (lookup (js "id") fields) e))
       end.
Proof.
  set (body := JObj fields).
  assert (Hs : sessions (post_mcp body trace)
               = [callMcpServer body (events_for 0 trace)]).
  { assert (H0 : nth_error (sessions (post_mcp body trace)) 0
                 = Some (callMcpServer body (events_for 0 trace))).
    { unfold Gateway.post_mcp. now rewrite sessions_fold_deliver. }
    destruct (batch_invariant_post_mcp JSON_parse body trace) as [Hreq _].
    destruct (sessions (post_mcp body trace)) as [|s [|s' ss]];
      try discriminate.
    cbn in H0. congruence. }
  split; [exact Hs|].
  pose proof (all_characterised body trace) as H.
  unfold mcp_result. rewrite Hs in H.
  destruct (all (post_mcp body trace)) as [|vs|e].
  - destruct H as [Hr He].
    destruct (outcome _) as [[m|e]|] eqn:Eo; [| |reflexivity]; exfalso.
    + apply Hr. constructor; [now exists m|constructor].
    + apply He. left. now exists e.
  - inversion H as [|? m ? vs' Hm Hrest]; subst. inversion Hrest; subst.
    now rewrite Hm.
  - inversion H as [? ? He|? ? He]; subst; [|inversion He].
    now rewrite He.
Qed.

(** X11. An empty batch is answered 200 with the empty array at once, and
    no subprocess is spawned, whatever the trace. *)
Theorem empty_batch_answer (trace : list (nat * event)) :
  mcp_result (JArr []) (post_mcp (JArr []) trace) = Sent 200 (Val (JArr []))
  /\ sessions (post_mcp (JArr []) trace) = []
  /\ spawned (sessions (post_mcp (JArr []) trace)) = 0%nat.
Proof.
  assert (E : post_mcp (JArr []) trace = dispatch []).
  { unfold Gateway.post_mcp. cbn [mcp_requests].
    induction trace as [|[i ev] trace IH]; [reflexivity|].
    cbn [fold_left]. unfold Gateway.deliver at 2. cbn [dispatch sessions map].
    destruct i; exact IH. }
  rewrite E. repeat split.
Qed.

(** X12. When a session of a batch fails, the handler answers with one
    error object, not an array, whose id is null; the responses of the
    sessions that have resolved are not sent. *)
Theorem failed_batch_single_envelope
  (requests : list json) (trace : list (nat * event)) :
  Exists is_rejected (sessions (post_mcp (JArr requests) trace)) ->
  exists e,
    Exists (fun s => outcome s = Some (Rejected e))
           (sessions (post_mcp (JArr requests) trace))
    /\ mcp_result (JArr requests) (post_mcp (JArr requests) trace)
       = Sent 500
           (Val (JObj [ (js "jsonrpc", JStr (js "2.0"));
                        (js "id", JNull);
                        (js "error",
                         JObj [ (js "code", JNum (Finite (-32603) 0));
                                (js "message", JStr (message e)) ]) ])).
Proof.
  intros Hrej. pose proof (all_characterised (JArr requests) trace) as H.
  unfold mcp_result.
  destruct (all (post_mcp (JArr requests) trace)) as [|vs|e].
  - destruct H as [_ He]. contradiction.
  - exfalso. eapply resolved_not_rejected; [|exact Hrej].
    eapply Forall2_resolved_Forall. exact H.
  - exists e. split; [exact H|reflexivity].
Qed.

(** ** [POST /run] *)

(** X13. A [POST /run] whose session sees no 'error' event, no non-zero
    exit and no stdout line answering its request is answered, when the
    timer fires, with status 500 and the error 'MCP server timeout after
    60s'; and whatever its session saw, a [POST /run] has answered (or
    thrown) once the timer has fired. *)
Theorem run_times_out
  (uuid : jsstring) (body code : json) (events : list event) :
  get body (js "code") = Some (Val code) ->
  truthy (Val code) = true ->
  snd (post_run uuid body (events ++ [TimerFired])) <> NoResponse
  /\ (Forall (fun ev => quiet ev = true) events ->
      Forall (fun raw => correlated (run_request uuid code) raw = false)
             (complete_lines (stdout_text events)) ->
      snd (post_run uuid body (events ++ [TimerFired]))
      = Sent 500
          (Val (JObj [ (js "error",
                        JStr (js "MCP server timeout after 60s")) ]))).
Proof.
  intros Hc Ht. unfold Gateway.post_run. rewrite Hc, Ht. cbn [negb snd].
  split.
  - pose proof (timer_settles JSON_parse (run_request uuid code) events) as H.
    destruct (outcome _) as [[m|e]|]; [| |contradiction].
    + destruct (get m (js "result")), (get m (js "error")); discriminate.
    + discriminate.
  - intros Hq Hl.
    destruct (timer_rejects JSON_parse (run_request uuid code) events)
      as [H _].
    { unfold outcome, Gateway.callMcpServer. apply run_quiet; auto. }
    now rewrite H.
Qed.

(** X14. [POST /run] checks only that [code] is truthy: an absent, null,
    false, zero or empty [code] is refused with 400 and no session, and
    any other JSON value, string or not, is forwarded unchanged as
    [params.arguments.code] of the one session started. *)
Theorem run_code_check
  (uuid : jsstring) (body : json) (code : jsval) (events : list event) :
  get body (js "code") = Some code ->
  (truthy code = false ->
   post_run uuid body events = ([], Sent 400 (Val code_required)))
  /\ (truthy code = true ->
      exists j,
        code = Val j
        /\ fst (post_run uuid body events)
           = [callMcpServer
                (JObj [ (js "jsonrpc", JStr (js "2.0"));
                        (js "id", JStr uuid);
                        (js "method", JStr (js "tools/call"));
                        (js "params",
                         JObj [ (js "name", JStr (js "run_code"));
                                (js "arguments",
                                 JObj [ (js "code", j) ]) ]) ])
                events]).
Proof.
  intros Hc. unfold Gateway.post_run. rewrite Hc.
  destruct code as [|j]; split; intros Ht; try discriminate.
  - reflexivity.
  - now rewrite Ht.
  - exists j. now rewrite Ht.
Qed.

End HandlerFacts.

(* ================================================================== *)
(** * Properties of the Matrix bridge *)

Import Bridge.

Lemma coalesce_default (a : jsval) (d : json) :
  d <> JNull ->
  coalesce a (Val d) <> Undefined /\ coalesce a (Val d) <> Val JNull.
Proof.
  intros Hd. destruct a as [|[]]; cbn; split; try discriminate;
    intros H; injection H; auto.
Qed.

Lemma first_assistant_In (messages : list json) (v : jsval) :
  first_assistant messages = Some (Returned v) ->
  exists msg, In msg messages /\ is_assistant msg = Some true
              /\ assistant_reply msg = Returned v.
Proof.
  induction messages as [|m ms IH]; [discriminate|]. cbn.
  destruct (is_assistant m) as [[|]|] eqn:E; try discriminate.
  - intros [= H]. exists m. auto.
  - intros H. destruct (IH H) as [msg [Hin Hm]]. exists msg. auto.
Qed.

Lemma first_assistant_skip (pre rest : list json) :
  Forall (fun m => is_assistant m = Some false) pre ->
  first_assistant (pre ++ rest) = first_assistant rest.
Proof.
  induction 1 as [|m pre Hm Hpre IH]; [reflexivity|].
  cbn. now rewrite Hm.
Qed.

Section ReplyFacts.

Variable ToString : json -> jsstring.

Local Abbreviation extract_reply := (Bridge.extract_reply ToString).

(** X15. A reply that [askLetta] returns is never null or undefined; and
    when it is not taken from an assistant message it is a non-empty
    string. *)
Theorem reply_is_defined (data : json) (v : jsval) :
  extract_reply data = Returned v ->
  v <> Undefined /\ v <> Val JNull
  /\ (forall messages,
        get data (js "messages") = Some (Val (JArr messages)) ->
        first_assistant messages = None ->
        exists text, v = Val (JStr text) /\ text <> []).
Proof.
  unfold Bridge.extract_reply.
  destruct (get data (js "messages")) as [field|] eqn:Hf; [|discriminate].
  assert (Hfallback : forall ts r,
    match join ToString [10] ts with
    | [] => Returned (Val (JStr no_response))
    | fallback => Returned (Val (JStr fallback))
    end = Returned r ->
    exists text, r = Val (JStr text) /\ text <> []).
  { intros ts r. destruct (join ToString [10] ts) as [|c f]; intros [= <-].
    - exists no_response. split; [reflexivity|discriminate].
    - exists (c :: f). split; [reflexivity|discriminate]. }
  destruct (coalesce field (Val (JArr []))) as [|[| | | |messages|]] eqn:Hc;
    try discriminate.
  destruct (first_assistant messages) as [r|] eqn:Hfa.
  - intros ->. destruct (first_assistant_In _ _ Hfa) as [msg [_ [_ Hr]]].
    unfold assistant_reply in Hr.
    destruct (get msg (js "assistant_message")) as [a|]; [|discriminate].
    destruct (get msg (js "content")) as [c|]; [|discriminate].
    injection Hr as <-.
    destruct (coalesce_default (coalesce a c) (JStr [])) as [H1 H2];
      [discriminate|].
    repeat split; auto.
    intros messages' [= ->]. cbn in Hc. injection Hc as ->. congruence.
  - destruct (tool_returns messages) as [ts|]; [|discriminate].
    intros H. destruct (Hfallback ts v H) as [text [-> Ht]].
    repeat split; try discriminate. intros _ _ _. now exists text.
Qed.

(** X16. The first assistant message decides the reply: the messages
    after it, well formed or not, and all tool returns are ignored. *)
Theorem first_assistant_wins
  (data : json) (pre post : list json) (msg : json) :
  get data (js "messages") = Some (Val (JArr (pre ++ msg :: post))) ->
  Forall (fun m => is_assistant m = Some false) pre ->
  is_assistant msg = Some true ->
  extract_reply data = assistant_reply msg.
Proof.
  intros Hd Hpre Hm. unfold Bridge.extract_reply. rewrite Hd. cbn [coalesce].
  rewrite first_assistant_skip by exact Hpre. cbn. now rewrite Hm.
Qed.

(** X17. A [null] entry met before any assistant message makes
    [askLetta] throw, whatever follows it. *)
Theorem null_message_throws (data : json) (pre post : list json) :
  get data (js "messages") = Some (Val (JArr (pre ++ JNull :: post))) ->
  Forall (fun m => is_assistant m = Some false) pre ->
  extract_reply data = Threw.
Proof.
  intros Hd Hpre. unfold Bridge.extract_reply. rewrite Hd. cbn [coalesce].
  now rewrite first_assistant_skip by exact Hpre.
Qed.

(** X18. A response without messages (no [messages] property, [null] or
    the empty array) is answered '(no response)'; a [messages] that is
    neither nullish nor an array makes [askLetta] throw. *)
Theorem missing_messages (data : json) (field : jsval) :
  get data (js "messages") = Some field ->
  (field = Undefined \/ field = Val JNull \/ field = Val (JArr []) ->
   extract_reply data = Returned (Val (JStr (js "(no response)"))))
  /\ (forall j, field = Val j -> j <> JNull -> is_array j = false ->
                extract_reply data = Threw).
Proof.
  intros Hd. unfold Bridge.extract_reply. rewrite Hd. split.
  - intros [->|[->| ->]]; reflexivity.
  - intros j -> Hn Ha. destruct j; try reflexivity;
      [contradiction|discriminate].
Qed.

End ReplyFacts.

(** ** The set of processed events *)

Lemma id_eqb_refl (i : event_id) : id_eqb i i = true.
Proof. destruct i; cbn; [now apply jsstring_eqb_eq|reflexivity]. Qed.

Lemma id_eqb_eq (a b : event_id) : id_eqb a b = true <-> a = b.
Proof.
  destruct a, b; cbn; split; try discriminate; try reflexivity.
  - intros H. apply jsstring_eqb_eq in H. now subst.
  - intros [= ->]. now apply jsstring_eqb_eq.
Qed.

Lemma has_In (p : id_set) (i : event_id) : has p i = true <-> In i p.
Proof.
  unfold has. rewrite existsb_exists. split.
  - intros [x [Hin Hx]]. apply id_eqb_eq in Hx. now subst.
  - intros Hin. exists i. split; [exact Hin|apply id_eqb_refl].
Qed.

Lemma trim_processed_cases (p : id_set) :
  trim_processed p = p
  \/ (exists first, p = first :: trim_processed p
                    /\ id_truthy first = true
                    /\ (500 < List.length p)%nat).
Proof.
  unfold trim_processed. destruct (Nat.ltb_spec 500 (List.length p)); auto.
  destruct p as [|first rest]; auto.
  destruct (id_truthy first) eqn:E; auto. right. now exists first.
Qed.

Section GateFacts.

Variable owner : jsstring.

Local Abbreviation handleMessage := (Bridge.handleMessage owner).
Local Abbreviation processed_after := (Bridge.processed_after owner).
Local Abbreviation fresh_text := (Bridge.fresh_text owner).

(** Either [processed] is left as it is, or the event is a fresh text
    message of the owner and its identifier is added. *)
Lemma handleMessage_state (p : id_set) (ev : matrix_event) :
  fst (handleMessage p ev) = p
  \/ (fresh_text p ev /\ fst (handleMessage p ev) = trim_processed (p ++ [id ev])).
Proof.
  unfold Bridge.handleMessage, Bridge.fresh_text.
  destruct (sender ev) as [from|]; [|auto].
  destruct (JsString.eqb from owner) eqn:Ef; [|auto].
  apply jsstring_eqb_eq in Ef. subst from.
  destruct (get (content ev) (js "msgtype")) as [t|]; [|auto].
  destruct (strict_eq t (Val (JStr (js "m.text")))) eqn:Et; [|auto].
  apply strict_eq_string_l in Et. subst t.
  destruct (has p (id ev)) eqn:Eh; [auto|]. right.
  split; [auto|].
  destruct (get (content ev) (js "body")) as [[|[| | |s| |]]|]; try reflexivity.
  now destruct (trim s).
Qed.

Lemma handleMessage_fresh (p : id_set) (ev : matrix_event) :
  fresh_text p ev -> fst (handleMessage p ev) = trim_processed (p ++ [id ev]).
Proof.
  intros [Hs [Hm Hh]]. unfold Bridge.handleMessage.
  rewrite Hs, Hm, Hh. rewrite (proj2 (jsstring_eqb_eq owner owner) eq_refl).
  cbn [strict_eq]. rewrite (proj2 (jsstring_eqb_eq _ _) eq_refl).
  destruct (get (content ev) (js "body")) as [[|[| | |s| |]]|]; try reflexivity.
  now destruct (trim s).
Qed.

Lemma answer_fresh (p : id_set) (ev : matrix_event) (text : jsstring) :
  snd (handleMessage p ev) = Answer text -> fresh_text p ev.
Proof.
  unfold Bridge.handleMessage, Bridge.fresh_text.
  destruct (sender ev) as [from|]; [|discriminate].
  destruct (JsString.eqb from owner) eqn:Ef; [|discriminate].
  apply jsstring_eqb_eq in Ef. subst from.
  destruct (get (content ev) (js "msgtype")) as [t|]; [|discriminate].
  destruct (strict_eq t (Val (JStr (js "m.text")))) eqn:Et; [|discriminate].
  apply strict_eq_string_l in Et. subst t.
  destruct (has p (id ev)) eqn:Eh; [discriminate|]. auto.
Qed.

(** X19. [handleMessage] answers an event only if it was sent by the
    owner, is a text message whose identifier is not in [processed], and
    has a string body that is not blank; the text it answers is the
    trimmed body. *)
Theorem answered_only_owner_text
  (p : id_set) (ev : matrix_event) (text : jsstring) :
  snd (handleMessage p ev) = Answer text ->
  sender ev = Some owner
  /\ get (content ev) (js "msgtype") = Some (Val (JStr (js "m.text")))
  /\ has p (id ev) = false
  /\ exists body,
       get (content ev) (js "body") = Some (Val (JStr body))
       /\ text = trim body /\ text <> [].
Proof.
  unfold Bridge.handleMessage.
  destruct (sender ev) as [from|]; [|discriminate].
  destruct (JsString.eqb from owner) eqn:Ef; [|discriminate].
  apply jsstring_eqb_eq in Ef. subst from.
  destruct (get (content ev) (js "msgtype")) as [t|]; [|discriminate].
  destruct (strict_eq t (Val (JStr (js "m.text")))) eqn:Et; [|discriminate].
  apply strict_eq_string_l in Et. subst t.
  destruct (has p (id ev)) eqn:Eh; [discriminate|].
  destruct (get (content ev) (js "body")) as [[|[| | |s| |]]|];
    try discriminate.
  destruct (trim s) as [|c t] eqn:Es; [discriminate|].
  cbn [snd]. intros [= <-]. repeat split; auto.
  exists s. rewrite Es. repeat split; auto. discriminate.
Qed.

Lemma has_trim_added (p : id_set) (i : event_id) :
  has p i = false -> has (trim_processed (p ++ [i])) i = true.
Proof.
  intros Hp. apply has_In.
  destruct (trim_processed_cases (p ++ [i])) as [->|[first [E [_ Hgt]]]].
  - apply in_or_app. right. now left.
  - assert (Hin : In i (p ++ [i])) by (apply in_or_app; right; now left).
    rewrite E in Hin. destruct Hin as [->|Hin]; [|exact Hin].
    exfalso. destruct p as [|x p].
    + cbn in Hgt. lia.
    + cbn [app] in E. injection E as -> _. cbn in Hp.
      rewrite id_eqb_refl in Hp. discriminate.
Qed.

(** X20. An event delivered again right after its first delivery is not
    answered a second time and leaves [processed] as it is. *)
Theorem redelivery_not_answered (p : id_set) (ev : matrix_event) :
  fst (handleMessage (fst (handleMessage p ev)) ev) = fst (handleMessage p ev)
  /\ forall text, snd (handleMessage (fst (handleMessage p ev)) ev) <> Answer text.
Proof.
  destruct (handleMessage_state p ev) as [E|[Hf E]].
  - rewrite E. destruct (handleMessage_state p ev) as [E'|[[Hs [Hm Hh]] E']].
    + split; [exact E'|]. intros text Ha.
      apply answer_fresh in Ha.
      destruct Ha as [Hs [Hm Hh]].
      pose proof (handleMessage_fresh p ev (conj Hs (conj Hm Hh))) as E2.
      rewrite E' in E2.
      pose proof (has_trim_added p (id ev) Hh) as Hin.
      rewrite <- E2 in Hin. congruence.
    + pose proof (has_trim_added p (id ev) Hh) as Hin.
      rewrite <- E', E in Hin. congruence.
  - rewrite E. destruct Hf as [Hs [Hm Hh]].
    pose proof (has_trim_added p (id ev) Hh) as Hin.
    unfold Bridge.handleMessage. rewrite Hs, Hm, Hin.
    rewrite (proj2 (jsstring_eqb_eq owner owner) eq_refl).
    cbn [strict_eq]. rewrite (proj2 (jsstring_eqb_eq _ _) eq_refl).
    split; [reflexivity|discriminate].
Qed.

Lemma handleMessage_bounded (p : id_set) (ev : matrix_event) :
  id_truthy (id ev) = true ->
  (List.length p <= 500)%nat /\ Forall (fun i => id_truthy i = true) p ->
  (List.length (fst (handleMessage p ev)) <= 500)%nat
  /\ Forall (fun i => id_truthy i = true) (fst (handleMessage p ev)).
Proof.
  intros Hi [Hl Ht]. destruct (handleMessage_state p ev) as [->|[_ ->]]; [auto|].
  assert (Hall : Forall (fun i => id_truthy i = true) (p ++ [id ev])).
  { apply Forall_app. split; [exact Ht|]. now constructor. }
  assert (Hlen : List.length (p ++ [id ev]) = S (List.length p)).
  { rewrite length_app. cbn. lia. }
  destruct (trim_processed_cases (p ++ [id ev])) as [E|[first [E [_ Hgt]]]].
  - rewrite E. split; [|exact Hall].
    unfold trim_processed in E.
    destruct (Nat.ltb_spec 500 (List.length (p ++ [id ev]))) as [Hgt|]; [|lia].
    destruct (p ++ [id ev]) as [|first rest] eqn:Ep; [cbn in Hlen; lia|].
    inversion Hall as [|? ? Hfirst _]; subst. rewrite Hfirst in E.
    exfalso. clear -E. induction rest as [|x r IH]; [discriminate|].
    injection E as -> E. now apply IH.
  - rewrite E in Hall, Hlen. inversion Hall; subst.
    cbn in Hlen. split; [lia|assumption].
Qed.

(** X21. [processed] never holds more than 500 identifiers, as long as no
    event identifier is empty or undefined. *)
Theorem processed_is_bounded (evs : list matrix_event) :
  Forall (fun ev => id_truthy (id ev) = true) evs ->
  (List.length (processed_after [] evs) <= 500)%nat.
Proof.
  intros H. unfold Bridge.processed_after.
  assert (Hinv : forall p,
    (List.length p <= 500)%nat /\ Forall (fun i => id_truthy i = true) p ->
    (List.length (fold_left (fun q ev => fst (handleMessage q ev)) evs p) <= 500)%nat).
  { induction H as [|ev evs Hev Hevs IH]; intros p Hp; [apply Hp|].
    cbn [fold_left]. apply IH. now apply handleMessage_bounded. }
  apply Hinv. split; [cbn; lia|constructor].
Qed.

(** X22. When the oldest identifier of [processed] is empty or undefined
    it is never evicted: each fresh text message of the owner then makes
    the set one larger, beyond 500. *)
Theorem falsy_oldest_blocks_eviction
  (first : event_id) (rest : id_set) (ev : matrix_event) :
  id_truthy first = false ->
  fresh_text (first :: rest) ev ->
  fst (handleMessage (first :: rest) ev) = first :: rest ++ [id ev].
Proof.
  intros Hf Hfresh. rewrite (handleMessage_fresh _ _ Hfresh).
  unfold trim_processed. cbn [app]. rewrite Hf.
  now destruct (_ <? _)%nat.
Qed.

Lemma skipn_S_tl {A} (k : nat) (l : list A) :
  skipn (S k) l = tl (skipn k l).
Proof.
  revert l. induction k as [|k IH]; intros [|x l]; try reflexivity.
  cbn [skipn] in *. apply IH.
Qed.

Lemma In_skipn {A} (k : nat) (l : list A) (x : A) :
  In x (skipn k l) -> In x l.
Proof.
  revert l. induction k as [|k IH]; intros [|y l] H; cbn in *; auto.
Qed.

(** X23. [processed] is a sliding window: after text messages of the
    owner with distinct, non-empty identifiers, it holds the identifiers
    of the last 500 of them, in the order of arrival. *)
Theorem processed_is_sliding_window (evs : list matrix_event) :
  Forall (fun ev => sender ev = Some owner
                    /\ get (content ev) (js "msgtype")
                       = Some (Val (JStr (js "m.text")))
                    /\ id_truthy (id ev) = true) evs ->
  NoDup (map id evs) ->
  processed_after [] evs = skipn (List.length evs - 500) (map id evs).
Proof.
  induction evs as [|ev evs IH] using rev_ind; intros Hall Hnd;
    [reflexivity|].
  apply Forall_app in Hall. destruct Hall as [Hall Hev].
  inversion Hev as [|? ? [Hs [Hm Ht]] _]; subst.
  rewrite map_app in *. cbn [map] in *.
  assert (Hnd' : NoDup (map id evs) /\ ~ In (id ev) (map id evs)).
  { apply NoDup_remove in Hnd. rewrite app_nil_r in Hnd. exact Hnd. }
  destruct Hnd' as [Hnd' Hnew].
  specialize (IH Hall Hnd').
  unfold Bridge.processed_after in *. rewrite fold_left_app. cbn [fold_left].
  rewrite IH. set (ids := map id evs) in *.
  set (n := List.length evs) in *.
  assert (Hn : List.length ids = n) by apply length_map.
  assert (Hfresh : fresh_text (skipn (n - 500) ids) ev).
  { repeat split; auto. destruct (has _ _) eqn:Eh; [|reflexivity].
    apply has_In in Eh. apply In_skipn in Eh. contradiction. }
  rewrite (handleMessage_fresh _ _ Hfresh).
  rewrite length_app. cbn [List.length]. fold n.
  assert (Htruthy : Forall (fun i => id_truthy i = true) ids).
  { unfold ids. apply Forall_map. eapply Forall_impl; [|exact Hall].
    intros e [_ [_ H]]. exact H. }
  unfold trim_processed. rewrite length_app, length_skipn, Hn.
  cbn [List.length].
  destruct (Nat.ltb_spec 500 (n - (n - 500) + 1)) as [Hgt|Hle].
  - assert (Hn500 : (500 <= n)%nat) by lia.
    replace (n + 1 - 500)%nat with (S (n - 500)) by lia.
    rewrite skipn_app, skipn_S_tl.
    replace (S (n - 500) - List.length ids)%nat with 0%nat by lia.
    cbn [skipn].
    destruct (skipn (n - 500) ids) as [|first rest] eqn:Es.
    + apply (f_equal (@List.length _)) in Es.
      rewrite length_skipn in Es. cbn in Es. lia.
    + assert (Hfirst : id_truthy first = true).
      { rewrite Forall_forall in Htruthy. apply Htruthy.
        apply (In_skipn (n - 500)). rewrite Es. now left. }
      cbn [app tl]. now rewrite Hfirst.
  - replace (n - 500)%nat with 0%nat by lia.
    replace (n + 1 - 500)%nat with 0%nat by lia. reflexivity.
Qed.

End GateFacts.

(* ================================================================== *)
(** * The further properties on sample traffic *)

Import MoreSamples.

Lemma chunking_is_irrelevant_witness :
  callMcpServer json_parse req_abc
    ([StdoutData init_ack] ++ map StdoutData [piece1; piece2] ++ [TimerFired])
  = callMcpServer json_parse req_abc
      ([StdoutData init_ack] ++ map StdoutData [piece1 ++ piece2]
       ++ [TimerFired]).
Proof.
  apply (chunking_is_irrelevant json_parse req_abc [StdoutData init_ack]
           [TimerFired] [piece1; piece2] [piece1 ++ piece2]).
  vm_compute. reflexivity.
Defined.

Lemma exit_failure_reports_stderr_witness :
  outcome (callMcpServer json_parse req_abc
             ([StderrData boom; StdoutData init_ack] ++ [ProcExit (Some 1%Z)]))
  = Some (Rejected
            (ExitError 1 (stderr_text [StderrData boom; StdoutData init_ack])))
  /\ message
       (ExitError 1 (stderr_text [StderrData boom; StdoutData init_ack]))
     = js "MCP server exited with code " ++ decimal 1 ++ js ": "
       ++ stderr_text [StderrData boom; StdoutData init_ack]
  /\ kills (log (callMcpServer json_parse req_abc
                   ([StderrData boom; StdoutData init_ack]
                    ++ [ProcExit (Some 1%Z)]))) = 0%nat.
Proof.
  apply (exit_failure_reports_stderr json_parse req_abc
           [StderrData boom; StdoutData init_ack] 1%Z).
  - vm_compute. reflexivity.
  - discriminate.
Defined.

Lemma resolved_message_was_received_witness :
  exists raw,
    In raw (complete_lines
              (stdout_text [StdoutData init_ack; StdoutData answer_abc]))
    /\ parsed_from json_parse raw (msg_abc (JObj []))
    /\ correlated json_parse req_abc raw = true.
Proof.
  apply (resolved_message_was_received json_parse req_abc
           [StdoutData init_ack; StdoutData answer_abc]).
  vm_compute. reflexivity.
Defined.

Lemma resolved_clears_timeout_witness :
  callMcpServer json_parse req_abc
    ([StdoutData init_ack; StdoutData answer_abc]
     ++ [ProcExit None] ++ [TimerFired])
  = callMcpServer json_parse req_abc
      ([StdoutData init_ack; StdoutData answer_abc] ++ [ProcExit None]).
Proof.
  apply (resolved_clears_timeout json_parse req_abc
           [StdoutData init_ack; StdoutData answer_abc] [ProcExit None]
           (msg_abc (JObj []))).
  vm_compute. reflexivity.
Defined.

Lemma sessions_are_independent_witness :
  nth_error
    (sessions (post_mcp json_parse (JArr [req_abc; req_init])
                 [ (1%nat, StdoutData init_ack);
                   (0%nat, StdoutData answer_abc);
                   (1%nat, StdoutData answer_init) ])) 1
  = Some (callMcpServer json_parse req_init
            (events_for 1 [ (1%nat, StdoutData init_ack);
                            (0%nat, StdoutData answer_abc);
                            (1%nat, StdoutData answer_init) ])).
Proof.
  apply (sessions_are_independent json_parse (JArr [req_abc; req_init])).
  reflexivity.
Defined.

Lemma mcp_answer_characterised_witness :
  (exists v,
     mcp_result (JArr [req_abc; req_init])
       (post_mcp json_parse (JArr [req_abc; req_init])
          [(1%nat, ProcExit (Some 2%Z))])
     = Sent 500 v)
  <-> Exists is_rejected
        (sessions (post_mcp json_parse (JArr [req_abc; req_init])
                     [(1%nat, ProcExit (Some 2%Z))])).
Proof.
  apply (mcp_answer_characterised json_parse (JArr [req_abc; req_init])
           [(1%nat, ProcExit (Some 2%Z))]).
  reflexivity.
Defined.

Lemma failed_batch_single_envelope_witness :
  exists e,
    Exists (fun s => outcome s = Some (Rejected e))
      (sessions (post_mcp json_parse (JArr [req_abc; req_init])
                   [ (0%nat, StdoutData answer_abc);
                     (1%nat, ProcExit (Some 2%Z)) ]))
    /\ mcp_result (JArr [req_abc; req_init])
         (post_mcp json_parse (JArr [req_abc; req_init])
            [ (0%nat, StdoutData answer_abc);
              (1%nat, ProcExit (Some 2%Z)) ])
       = Sent 500
           (Val (JObj [ (js "jsonrpc", JStr (js "2.0"));
                        (js "id", JNull);
                        (js "error",
                         JObj [ (js "code", JNum (Finite (-32603) 0));
                                (js "message", JStr (message e)) ]) ])).
Proof.
  apply (failed_batch_single_envelope json_parse [req_abc; req_init]
           [ (0%nat, StdoutData answer_abc); (1%nat, ProcExit (Some 2%Z)) ]).
  right. left. exists (ExitError 2 []). vm_compute. reflexivity.
Defined.

Lemma run_times_out_witness :
  snd (post_run json_parse uuid (run_body (js "print(1)"))
         ([StdoutData init_ack; StdoutData log_line] ++ [TimerFired]))
  = Sent 500
      (Val (JObj [ (js "error", JStr (js "MCP server timeout after 60s")) ])).
Proof.
  apply (run_times_out json_parse uuid (run_body (js "print(1)"))
           (JStr (js "print(1)")) [StdoutData init_ack; StdoutData log_line]).
  - reflexivity.
  - reflexivity.
  - apply Forall_of_forallb. vm_compute. reflexivity.
  - apply Forall_of_existsb. vm_compute. reflexivity.
Defined.

Lemma run_code_check_witness :
  post_run json_parse uuid (JObj [ (js "code", JNum (Finite 0 0)) ]) []
  = ([], Sent 400 (Val code_required)).
Proof.
  apply (run_code_check json_parse uuid
           (JObj [ (js "code", JNum (Finite 0 0)) ])
           (Val (JNum (Finite 0 0))) []).
  - reflexivity.
  - reflexivity.
Defined.

(** ** The bridge *)

Lemma reply_is_defined_witness :
  Val (JStr (js "Hello")) <> Undefined
  /\ Val (JStr (js "Hello")) <> Val JNull
  /\ (forall messages,
        get (letta_data [reasoning_msg; tool_msg; assistant_msg])
            (js "messages") = Some (Val (JArr messages)) ->
        first_assistant messages = None ->
        exists text, Val (JStr (js "Hello")) = Val (JStr text) /\ text <> []).
Proof.
  apply (reply_is_defined object_string
           (letta_data [reasoning_msg; tool_msg; assistant_msg])).
  vm_compute. reflexivity.
Defined.

Lemma first_assistant_wins_witness :
  extract_reply object_string
    (letta_data ([reasoning_msg; tool_msg] ++ assistant_msg :: [JNull]))
  = assistant_reply assistant_msg.
Proof.
  apply (first_assistant_wins object_string _ [reasoning_msg; tool_msg]
           [JNull] assistant_msg).
  - reflexivity.
  - repeat constructor.
  - reflexivity.
Defined.

Lemma null_message_throws_witness :
  extract_reply object_string
    (letta_data ([tool_msg] ++ JNull :: [assistant_msg]))
  = Threw.
Proof.
  apply (null_message_throws object_string _ [tool_msg] [assistant_msg]).
  - reflexivity.
  - repeat constructor.
Defined.

Lemma missing_messages_witness :
  extract_reply object_string (JObj [])
  = Returned (Val (JStr (js "(no response)"))).
Proof.
  apply (missing_messages object_string (JObj []) Undefined).
  - reflexivity.
  - left. reflexivity.
Defined.

(** With tool returns only, the reply is their text. *)
Example tool_returns_joined :
  extract_reply object_string (letta_data [tool_msg; reasoning_msg; tool_msg])
  = Returned (Val (JStr (js "42" ++ [10] ++ js "42"))).
Proof. vm_compute. reflexivity. Qed.

Lemma answered_only_owner_text_witness :
  sender hello_event = Some owner_mxid
  /\ get (content hello_event) (js "msgtype")
     = Some (Val (JStr (js "m.text")))
  /\ has [] (id hello_event) = false
  /\ exists body,
       get (content hello_event) (js "body") = Some (Val (JStr body))
       /\ js "hi there" = trim body /\ js "hi there" <> [].
Proof.
  apply (answered_only_owner_text owner_mxid [] hello_event (js "hi there")).
  vm_compute. reflexivity.
Defined.

Lemma distinct_NoDup (l : id_set) : WindowSamples.distinct l = true -> NoDup l.
Proof.
  induction l as [|i l IH]; cbn; [constructor|].
  intros H. apply andb_true_iff in H. destruct H as [Hi Hl].
  constructor; [|now apply IH].
  intros Hin. apply has_In in Hin. rewrite Hin in Hi. discriminate.
Qed.

Lemma numbered_events_text (l : list nat) :
  Forall (fun ev => sender ev = Some owner_mxid
                    /\ get (content ev) (js "msgtype")
                       = Some (Val (JStr (js "m.text")))
                    /\ id_truthy (id ev) = true)
         (map WindowSamples.numbered_event l).
Proof.
  apply Forall_forall. intros ev Hin. apply in_map_iff in Hin.
  destruct Hin as [n [<- _]]. repeat split.
Qed.

(** After 505 distinct messages the five oldest identifiers have been
    evicted and [processed] holds 500. *)
Lemma processed_is_bounded_witness :
  (List.length (processed_after owner_mxid [] WindowSamples.long_run)
   <= 500)%nat
  /\ List.length (processed_after owner_mxid [] WindowSamples.long_run)
     = 500%nat
  /\ List.length WindowSamples.long_run = 505%nat.
Proof.
  split; [|split; vm_compute; reflexivity].
  apply (processed_is_bounded owner_mxid WindowSamples.long_run).
  eapply Forall_impl; [|apply numbered_events_text].
  intros ev [_ [_ H]]. exact H.
Defined.

(** A set of 500 whose oldest identifier is the empty string: the 501st
    identifier is added and nothing is evicted. *)
Lemma falsy_oldest_blocks_eviction_witness :
  fst (handleMessage owner_mxid (Some [] :: WindowSamples.older_ids)
         (WindowSamples.numbered_event 1000))
  = Some [] :: WindowSamples.older_ids ++ [WindowSamples.numbered_id 1000]
  /\ List.length (Some [] :: WindowSamples.older_ids) = 500%nat
  /\ List.length
       (fst (handleMessage owner_mxid (Some [] :: WindowSamples.older_ids)
               (WindowSamples.numbered_event 1000))) = 501%nat.
Proof.
  split; [|split; vm_compute; reflexivity].
  apply (falsy_oldest_blocks_eviction owner_mxid (Some [])
           WindowSamples.older_ids (WindowSamples.numbered_event 1000)).
  - reflexivity.
  - split; [reflexivity|split; [reflexivity|vm_compute; reflexivity]].
Defined.

(** The same set with a non-empty oldest identifier: the oldest is
    evicted and the set stays at 500. *)
Example truthy_oldest_is_evicted :
  fst (handleMessage owner_mxid
         (WindowSamples.numbered_id 0 :: WindowSamples.older_ids)
         (WindowSamples.numbered_event 1000))
  = WindowSamples.older_ids ++ [WindowSamples.numbered_id 1000].
Proof. vm_compute. reflexivity. Qed.

(** After 505 distinct messages [processed] is the identifiers of the
    last 500: it starts at '$5'. *)
Lemma processed_is_sliding_window_witness :
  processed_after owner_mxid [] WindowSamples.long_run
  = skipn (List.length WindowSamples.long_run - 500)
          (map id WindowSamples.long_run)
  /\ (List.length WindowSamples.long_run - 500 = 5)%nat
  /\ hd None (processed_after owner_mxid [] WindowSamples.long_run)
     = WindowSamples.numbered_id 5.
Proof.
  split; [|split; vm_compute; reflexivity].
  apply (processed_is_sliding_window owner_mxid WindowSamples.long_run).
  - apply numbered_events_text.
  - apply distinct_NoDup. vm_compute. reflexivity.
Defined.

(* ================================================================== *)
(** * The timer after a failure *)

Section FailureFacts.

Variable JSON_parse : jsstring -> option json.

Local Abbreviation step := (Gateway.step JSON_parse).
Local Abbreviation run := (Gateway.run JSON_parse).
Local Abbreviation callMcpServer := (Gateway.callMcpServer JSON_parse).

Lemma timer_stays_cleared_step (s : session) (ev : event) :
  timer s = false -> timer (step s ev) = false.
Proof.
  apply (step_preserves JSON_parse (fun s => timer s = false)); auto.
  intros s0 raw s' H Ha. destruct Ha; auto.
Qed.

Lemma timer_stays_cleared (evs : list event) (s : session) :
  timer s = false -> timer (run s evs) = false.
Proof.
  apply (run_preserves JSON_parse (fun s => timer s = false)).
  intros s0 ev. apply timer_stays_cleared_step.
Qed.

(** X24. An 'error' event received while the promise is pending rejects
    it with the error of the event and clears the timeout for good:
    whatever arrives afterwards, the timer does not fire. A non-zero exit
    leaves the timeout pending: when the timer fires next, the exited
    subprocess is killed, after the promise has been rejected. *)
Theorem timer_after_failure (req : json) (pre : list event) :
  outcome (callMcpServer req pre) = None ->
  (forall m post,
     outcome (callMcpServer req (pre ++ ProcError m :: post))
     = Some (Rejected (ProcessError m))
     /\ callMcpServer req (pre ++ ProcError m :: post ++ [TimerFired])
        = callMcpServer req (pre ++ ProcError m :: post))
  /\ (forall c,
        c <> 0%Z ->
        outcome (callMcpServer req (pre ++ [ProcExit (Some c); TimerFired]))
        = Some (Rejected (ExitError c (stderr (callMcpServer req pre))))
        /\ first_settle
             (log (callMcpServer req (pre ++ [ProcExit (Some c); TimerFired])))
             0
           = Some (Rejected (ExitError c (stderr (callMcpServer req pre))),
                   0%nat)
        /\ kills (log (callMcpServer req
                         (pre ++ [ProcExit (Some c); TimerFired]))) = 1%nat).
Proof.
  intros Hp. destruct (pending_armed JSON_parse req pre Hp) as [Ht Hk].
  unfold Gateway.callMcpServer, outcome in *. split.
  - intros m post.
    assert (Hs : settled (log (step (run (start req) pre) (ProcError m)))
                 = Some (Rejected (ProcessError m))).
    { cbn [Gateway.step log emit clear_timeout]. now rewrite settled_app, Hp. }
    split.
    + rewrite (run_app JSON_parse). cbn [Gateway.run fold_left].
      now apply (settled_run JSON_parse).
    + change (ProcError m :: post ++ [TimerFired])
        with ((ProcError m :: post) ++ [TimerFired]).
      rewrite app_assoc, (run_snoc JSON_parse). cbn [Gateway.step].
      rewrite (run_app JSON_parse). cbn [Gateway.run fold_left].
      fold (run (step (run (start req) pre) (ProcError m)) post).
      now rewrite timer_stays_cleared.
  - intros c Hc. rewrite (run_app JSON_parse).
    cbn [Gateway.run fold_left Gateway.step].
    destruct (Z.eqb_spec c 0) as [|_]; [contradiction|].
    cbn [timer emit]. rewrite Ht. cbn [log emit clear_timeout].
    rewrite <- app_assoc.
    rewrite settled_app, Hp, first_settle_app, kills_app, Hk.
    assert (Hf : first_settle (log (fold_left step pre (start req))) 0 = None).
    { pose proof (settled_first_settle
                    (log (fold_left step pre (start req))) 0) as E.
      unfold Gateway.run in Hp. rewrite Hp in E.
      destruct (first_settle _ 0); [discriminate|reflexivity]. }
    unfold Gateway.run in *. rewrite Hf. cbn. auto.
Qed.

End FailureFacts.

Lemma timer_after_failure_witness :
  outcome (callMcpServer json_parse req_abc
             ([StdoutData init_ack] ++ ProcError enoent :: [StdoutData log_line]))
  = Some (Rejected (ProcessError enoent))
  /\ callMcpServer json_parse req_abc
       ([StdoutData init_ack]
        ++ ProcError enoent :: [StdoutData log_line] ++ [TimerFired])
     = callMcpServer json_parse req_abc
         ([StdoutData init_ack] ++ ProcError enoent :: [StdoutData log_line]).
Proof.
  apply (timer_after_failure json_parse req_abc [StdoutData init_ack]).
  vm_compute. reflexivity.
Defined.

(** ** [POST /mcp]: a failed session, a resolved one *)

(** The first session fails while the second is pending: the handler has
    answered 500; the second session then resolves and the answer stays. *)
Lemma batch_fan_out_witness :
  (exists e,
     Exists (fun s => outcome s = Some (Rejected e))
       (sessions (post_mcp json_parse (JArr [req_abc; req_init])
                    [(0%nat, ProcError enoent)]))
     /\ mcp_result (JArr [req_abc; req_init])
          (post_mcp json_parse (JArr [req_abc; req_init])
             [(0%nat, ProcError enoent)])
        = Sent 500
            (Val (JObj [ (js "jsonrpc", JStr (js "2.0"));
                         (js "id", JNull);
                         (js "error",
                          JObj [ (js "code", JNum (Finite (-32603) 0));
                                 (js "message", JStr (message e)) ]) ])))
  /\ (exists responses,
        mcp_result (JArr [req_abc; req_init])
          (post_mcp json_parse (JArr [req_abc; req_init])
             [ (1%nat, StdoutData init_ack);
               (1%nat, StdoutData answer_init);
               (0%nat, StdoutData answer_abc) ])
        = Sent 200 (Val (JArr responses))
        /\ List.length responses = List.length [req_abc; req_init]
        /\ Forall2 (fun s m => outcome s = Some (Resolved m))
             (sessions (post_mcp json_parse (JArr [req_abc; req_init])
                          [ (1%nat, StdoutData init_ack);
                            (1%nat, StdoutData answer_init);
                            (0%nat, StdoutData answer_abc) ]))
             responses
        /\ Forall2 answers [req_abc; req_init] responses).
Proof.
  split.
  - apply (batch_fan_out json_parse [req_abc; req_init]
             [(0%nat, ProcError enoent)]).
    left. exists (ProcessError enoent). vm_compute. reflexivity.
  - apply (batch_fan_out json_parse [req_abc; req_init]
             [ (1%nat, StdoutData init_ack);
               (1%nat, StdoutData answer_init);
               (0%nat, StdoutData answer_abc) ]).
    repeat constructor.
    + exists (msg_abc (JObj [])). vm_compute. reflexivity.
    + exists msg_init. vm_compute. reflexivity.
Defined.

(** The answer to a failed batch is not changed by a session that resolves
    afterwards. *)
Example failed_batch_answer_stays :
  mcp_result (JArr [req_abc; req_init])
    (post_mcp json_parse (JArr [req_abc; req_init])
       ([(0%nat, ProcError enoent)]
        ++ [ (1%nat, StdoutData init_ack); (1%nat, StdoutData answer_init) ]))
  = Sent 500 (Val (error_envelope Undefined (ProcessError enoent)))
  /\ map outcome
       (sessions (post_mcp json_parse (JArr [req_abc; req_init])
                    ([(0%nat, ProcError enoent)]
                     ++ [ (1%nat, StdoutData init_ack);
                          (1%nat, StdoutData answer_init) ])))
     = [Some (Rejected (ProcessError enoent)); Some (Resolved msg_init)].
Proof. split; vm_compute; reflexivity. Qed.
